(** * ggshield.scan.scannable: a shallow embedding and its properties

    The development follows [ggshield/scan/scannable.py]: the raw patch
    header parser, the patch body splitter, the report model
    ([Result], [Error], [Results], [ScanCollection]), the scan dispatcher
    with its error classifier, and the lazy [Commit] accessors.

    Python values are modelled as follows.
    - [str] is a list of Unicode code points ([N]); literals are written
      with [lit].
    - An exception is a class tag with its message; a computation that can
      raise returns a [result].
    - A generator is the list of values it yields together with the
      exception that ends it, if any ([gen]).
    - Collaborators that live outside the module (the exclusion predicate,
      the ignore filters, [ast.literal_eval], the git shell, the remote
      client, library constants) are section variables. *)

From Stdlib Require Import List ZArith NArith Lia Bool Ascii String Permutation.
From Stdlib Require Import DecimalString.
Import ListNotations.

Set Implicit Arguments.

(* ------------------------------------------------------------------ *)
(** ** Python strings *)

Module Py.

Definition char := N.
Definition str := list char.

Definition lit (s : string) : str :=
  map N_of_ascii (list_ascii_of_string s).

Definition NUL : char := 0%N.
Definition LF : char := 10%N.
Definition SP : char := 32%N.
Definition COLON : char := 58%N.

Fixpoint str_eqb (a b : str) : bool :=
  match a, b with
  | [], [] => true
  | x :: a', y :: b' => N.eqb x y && str_eqb a' b'
  | _, _ => false
  end.

(** [c in s] for a one-character [c]. *)
Fixpoint mem (c : char) (s : str) : bool :=
  match s with
  | [] => false
  | x :: s' => N.eqb x c || mem c s'
  end.

(** [s.startswith(p)] *)
Fixpoint starts_with (p s : str) : bool :=
  match p, s with
  | [], _ => true
  | x :: p', y :: s' => N.eqb x y && starts_with p' s'
  | _ :: _, [] => false
  end.

(** [s.rstrip(chars)]: drop the longest suffix made of characters of
    [chars]. *)
Fixpoint rstrip (chars s : str) : str :=
  match s with
  | [] => []
  | c :: s' =>
      match rstrip chars s' with
      | [] => if mem c chars then [] else [c]
      | r => c :: r
      end
  end.

(** Push a character on the field being read. *)
Definition cons_head (c : char) (fields : list str) : list str :=
  match fields with
  | h :: t => (c :: h) :: t
  | [] => [[c]]
  end.

(** [s.split(sep, maxsplit)] for a non-empty [sep]; [budget = None] is the
    unbounded split.  [skip] counts the characters of a separator that was
    just matched and that are still to be passed over. *)
Fixpoint split_from (sep : str) (budget : option nat) (skip : nat) (s : str)
  : list str :=
  match s with
  | [] => [[]]
  | c :: s' =>
      match skip with
      | S k => split_from sep budget k s'
      | O =>
          match budget with
          | Some O => cons_head c (split_from sep budget 0 s')
          | _ =>
              if starts_with sep s
              then [] :: split_from sep (option_map pred budget)
                           (List.length sep - 1) s'
              else cons_head c (split_from sep budget 0 s')
          end
      end
  end.

Definition split (sep s : str) : list str := split_from sep None 0 s.

Definition split_max (sep : str) (maxsplit : nat) (s : str) : list str :=
  split_from sep (Some maxsplit) 0 s.

(** The text after the last occurrence of [c]. *)
Fixpoint after_last (c : char) (s : str) : str :=
  match s with
  | [] => []
  | x :: s' => if mem c s' then after_last c s' else if N.eqb x c then s' else x :: s'
  end.

(** The text before the last occurrence of [c] (all of [s] without one). *)
Fixpoint before_last (c : char) (s : str) : str :=
  match s with
  | [] => []
  | x :: s' => if mem c s' then x :: before_last c s' else if N.eqb x c then [] else x :: s'
  end.

(** [s.rsplit(c, 1)] for a one-character separator. *)
Definition rsplit1 (c : char) (s : str) : list str :=
  if mem c s then [before_last c s; after_last c s] else [s].

(** [s.index(sub)]: the first position of [sub], [None] for Python's
    [ValueError]. *)
Fixpoint find (sub s : str) : option nat :=
  if starts_with sub s then Some O
  else match s with
       | [] => None
       | _ :: s' => option_map S (find sub s')
       end.

(** [", ".join(parts)] and friends. *)
Fixpoint join (sep : str) (parts : list str) : str :=
  match parts with
  | [] => []
  | [p] => p
  | p :: rest => p ++ sep ++ join sep rest
  end.

(** [sub in s] for an arbitrary [sub]. *)
Definition contains (sub s : str) : bool :=
  match find sub s with Some _ => true | None => false end.

(** Python exceptions: the class and [str(exc)]. *)
Inductive exn_class :=
| ValueError | IndexError | AttributeError | UnicodeEncodeError
| PatchParseError | ClickException | UsageError | OtherError (name : str).

Record exn := Exn { exn_kind : exn_class; exn_str : str }.

Inductive result (A : Type) :=
| Ok (a : A)
| Raise (e : exn).
Arguments Ok {A} a.
Arguments Raise {A} e.

Definition bind {A B} (m : result A) (k : A -> result B) : result B :=
  match m with
  | Ok a => k a
  | Raise e => Raise e
  end.

(** A generator run to its end: what it yielded, and the exception that
    stopped it (if one did). *)
Record gen (A : Type) := Gen { yielded : list A; raised : option exn }.

Definition gen_done {A} (l : list A) : gen A := Gen l None.
Definition gen_raise {A} (e : exn) : gen A := Gen [] (Some e).

(** Yield [x], then continue as [g]. *)
Definition gen_cons {A} (x : A) (g : gen A) : gen A :=
  Gen (x :: yielded g) (raised g).

(** Run [g]; when it ends normally continue as [h]. *)
Definition gen_app {A} (g h : gen A) : gen A :=
  match raised g with
  | None => Gen (yielded g ++ yielded h) (raised h)
  | Some e => Gen (yielded g) (Some e)
  end.

(** [list(g)] *)
Definition gen_list {A} (g : gen A) : result (list A) :=
  match raised g with
  | None => Ok (yielded g)
  | Some e => Raise e
  end.

End Py.
Import Py.

Notation "x <- m ;; k" := (bind m (fun x => k))
  (at level 61, m at next level, right associativity).

(* ------------------------------------------------------------------ *)
(** ** Patch header parser *)

(** [ggshield.core.utils.Filemode] *)
Inductive Filemode := FILE | NEW | MODIFY | RENAME | DELETE.

Definition digits : str := lit "0123456789".

Definition status_of_prefix (prefix : str) : str :=
  rstrip digits (last (rsplit1 SP prefix) []).

Definition _parse_patch_header_line (line : str) : result (str * Filemode) :=
  match split [NUL] (rstrip [NUL] line) with
  | prefix :: name :: rest =>
      let name := match rest with r :: _ => r | [] => name end in
      let status := status_of_prefix prefix in
      if contains (lit "M") status then Ok (name, MODIFY)
      else if contains (lit "C") status then Ok (name, NEW)
      else if contains (lit "A") status then Ok (name, NEW)
      else if contains (lit "T") status then Ok (name, NEW)
      else if contains (lit "R") status then Ok (name, RENAME)
      else if contains (lit "D") status then Ok (name, DELETE)
      else Raise (Exn ValueError
                    (lit "Can't parse header line " ++ line
                     ++ lit ": unknown status " ++ status))
  | _ =>
      Raise (Exn ValueError
               (lit "not enough values to unpack (expected at least 2, got 1)"))
  end.

(** [_RX_HEADER_LINE_SEPARATOR.split(header)]: the regular expression is
    a newline or a NUL followed by a colon. *)
Fixpoint header_line_split (s : str) : list str :=
  match s with
  | [] => [[]]
  | c :: s' =>
      match s' with
      | d :: s'' =>
          if (N.eqb c LF || N.eqb c NUL) && N.eqb d COLON
          then [] :: header_line_split s''
          else cons_head c (header_line_split s')
      | [] => [[c]]
      end
  end.

(** The generator [_parse_patch_header], as the outcomes of its successive
    pulls: each pull parses one more line, and a pull that raises ends the
    generator (later entries are never computed by Python).  On an empty
    header the first pull already fails on [header[0]]. *)
Definition _parse_patch_header (header : str) : list (result (str * Filemode)) :=
  match header with
  | [] => [Raise (Exn IndexError (lit "string index out of range"))]
  | c :: _ =>
      let header := if N.eqb c COLON then LF :: header else header in
      map (fun line => _parse_patch_header_line (COLON :: line))
          (tl (header_line_split header))
  end.

(* ------------------------------------------------------------------ *)
(** ** Report model *)

(** [pygitguardian.models.PolicyBreak] and [ScanResult], reduced to what
    this module reads. *)
Record PolicyBreak := {
  break_type : str;
  policy : str;
  matches : list str
}.

Record ScanResult := {
  policy_break_count : Z;
  policy_breaks : list PolicyBreak;
  policies : list str
}.

Definition has_policy_breaks (s : ScanResult) : bool :=
  (0 <? policy_break_count s)%Z.

Record Result := {
  content : str;
  filemode : Filemode;
  filename : str;
  scan : ScanResult
}.

Record Error := {
  files : list (str * Filemode);
  description : str
}.

Record Results := {
  results : list Result;
  errors : list Error
}.

Definition from_exception (exc : exn) : Results :=
  let error := {| files := []; description := exn_str exc |} in
  {| results := []; errors := [error] |}.

(** [ggshield.iac.models.IaCScanResult], reduced to the field read here. *)
Record IaCScanResult := {
  entities_with_incidents : list str
}.

#[warnings="-register-all"]
Inductive ScanCollection := {
  sc_id : str;
  sc_type : str;
  sc_results : option Results;
  scans : option (list ScanCollection);
  iac_result : option IaCScanResult;
  optional_header : option str;
  extra_info : option (list (str * str))
}.

(** Truth value of an [Optional[Results]]: [Results] is a plain dataclass
    (neither [__bool__] nor [__len__]), so every instance is true and only
    [None] is false. *)
Definition results_truthy (r : option Results) : bool :=
  match r with
  | Some _ => true
  | None => false
  end.

(** Truth value of an [Optional[List[...]]]. *)
Definition list_truthy {A} (l : option (list A)) : bool :=
  match l with
  | Some (_ :: _) => true
  | _ => false
  end.

Definition scans_with_results (self : ScanCollection) : list ScanCollection :=
  match scans self with
  | Some ((_ :: _) as children) =>
      filter (fun scan => results_truthy (sc_results scan)) children
  | _ => []
  end.

Definition has_iac_result (self : ScanCollection) : bool :=
  match iac_result self with
  | Some r => match entities_with_incidents r with [] => false | _ => true end
  | None => false
  end.

Definition has_results (self : ScanCollection) : bool :=
  match sc_results self with
  | Some r => match results r with [] => false | _ => true end
  | None => false
  end.

(** [yield from scan.results.results]: attribute access on [None] raises. *)
Definition yield_child_results (scan : ScanCollection) : gen Result :=
  match sc_results scan with
  | Some r => gen_done (results r)
  | None =>
      gen_raise (Exn AttributeError
                   (lit "'NoneType' object has no attribute 'results'"))
  end.

Fixpoint yield_children_results (children : list ScanCollection) : gen Result :=
  match children with
  | [] => gen_done []
  | scan :: rest => gen_app (yield_child_results scan) (yield_children_results rest)
  end.

Definition get_all_results (self : ScanCollection) : gen Result :=
  gen_app
    (match sc_results self with
     | Some r => gen_done (results r)
     | None => gen_done []
     end)
    (match scans self with
     | Some ((_ :: _) as children) => yield_children_results children
     | _ => gen_done []
     end).

(** The reading of the specification: the results of a node followed by
    those of every descendant, children in list order. *)
Fixpoint subtree_results (n : ScanCollection) : list Result :=
  match n with
  | Build_ScanCollection _ _ r cs _ _ _ =>
      match r with Some r => results r | None => [] end
      ++ match cs with
         | Some children => flat_map subtree_results children
         | None => []
         end
  end.

(** A child's results are non-empty in the sense of the specification:
    at least one result or one error. *)
Definition results_nonempty (r : option Results) : bool :=
  match r with
  | Some r =>
      match results r, errors r with
      | [], [] => false
      | _, _ => true
      end
  | None => false
  end.

(* ------------------------------------------------------------------ *)
(** ** Files and effects *)

(** A [File] whose payload is in memory: [document] is the value that the
    [document] property returns.  For a [CommitFile] and for
    [File.from_bytes] it is given at construction.  For [File.from_path]
    the property opens and decodes the file on first use, keeps the text,
    and can raise there; that first read is not part of this model, which
    starts from files that have been read. *)
Record File := {
  document : str;
  file_name : str;
  file_mode : Filemode
}.

Definition CommitFile (document filename : str) (filemode : Filemode) : File :=
  {| document := document; file_name := filename; file_mode := filemode |}.

(** What the module does to the outside world, in program order. *)
Inductive event :=
| GitShell (argv : list str)
| ParsePatch
| Progress (advance : nat)
| Submit (chunk : list File)
| CachePurge
| CacheAddFoundPolicyBreak (policy_break : PolicyBreak) (filename : str)
| CacheSave
| LogError (status_code : option Z) (detail : str)
| DisplayError (text : str)
| Echo (text : str).

(** Effectful code: the events performed, then a value or an exception. *)
Definition io (A : Type) : Type := (list event * result A)%type.

Definition io_ret {A} (a : A) : io A := ([], Ok a).
Definition io_raise {A} (e : exn) : io A := ([], Raise e).
Definition emit (ev : event) : io unit := ([ev], Ok tt).

Definition io_bind {A B} (m : io A) (k : A -> io B) : io B :=
  match snd m with
  | Ok a => (fst m ++ fst (k a), snd (k a))
  | Raise e => (fst m, Raise e)
  end.

Notation "x <~ m ;; k" := (io_bind m (fun x => k))
  (at level 61, m at next level, right associativity).
Notation "m ;;; k" := (io_bind m (fun _ => k))
  (at level 61, right associativity).

Definition trace {A} (m : io A) : list event := fst m.
Definition outcome {A} (m : io A) : result A := snd m.

(* ------------------------------------------------------------------ *)
(** ** Remote outcomes *)

(** [pygitguardian.models.Detail]: built as [Detail(detail=...)] it has no
    status code.  [success] is [status_code == 200] for every response. *)
Record Detail := {
  detail : str;
  status_code : option Z
}.

Record MultiScanResult := {
  scan_results : list ScanResult;
  multi_status_code : option Z
}.

Inductive response :=
| RDetail (d : Detail)
| RMulti (m : MultiScanResult).

Definition status_is (code : Z) (s : option Z) : bool :=
  match s with
  | Some c => (c =? code)%Z
  | None => false
  end.

Definition success (r : response) : bool :=
  match r with
  | RDetail d => status_is 200 (status_code d)
  | RMulti m => status_is 200 (multi_status_code m)
  end.

(** A finished future: the call raised, or returned a response. *)
Inductive future :=
| Raised (exception : exn)
| Returned (r : response).

(** Values [ast.literal_eval] can return. *)
#[warnings="-register-all"]
Inductive pyvalue :=
| PyNone
| PyBool (b : bool)
| PyInt (z : Z)
| PyStr (s : str)
| PyList (l : list pyvalue)
| PyTuple (l : list pyvalue)
| PyDict (l : list (pyvalue * pyvalue))
| PyOpaque (truth : bool).

Definition py_truthy (v : pyvalue) : bool :=
  match v with
  | PyNone => false
  | PyBool b => b
  | PyInt z => negb (z =? 0)%Z
  | PyStr s => match s with [] => false | _ => true end
  | PyList l => match l with [] => false | _ => true end
  | PyTuple l => match l with [] => false | _ => true end
  | PyDict l => match l with [] => false | _ => true end
  | PyOpaque t => t
  end.

(* ------------------------------------------------------------------ *)
(** ** Error classifier and scan dispatcher *)

Section Scanner.

(** Collaborators from outside the module. *)
Variable literal_eval : str -> result pyvalue.
Variable py_str : pyvalue -> str.
Variable detail_str : Detail -> str.
Variable format_filename : str -> str.
Variable pluralize : str -> nat -> str.
Variable remove_ignored_from_result : ScanResult -> ScanResult.
Variable remove_results_from_ignore_detectors : ScanResult -> ScanResult.
Variable MULTI_DOCUMENT_LIMIT : Z.

(** [client.multi_content_scan(documents, headers)] as run by the worker
    of the [n]-th submission: it raises or returns a response. *)
Variable multi_content_scan : nat -> list (str * str) -> future.

(** [concurrent.futures.as_completed]: the futures in completion order. *)
Variable as_completed : list (future * list File) -> list (future * list File).

(** The loop [for i, inner_detail in enumerate(details)], from index [i]. *)
Fixpoint echo_details (chunk : list File) (i : nat) (details : list pyvalue)
  : io unit :=
  match details with
  | [] => io_ret tt
  | inner_detail :: rest =>
      (if py_truthy inner_detail
       then match nth_error chunk i with
            | Some file =>
                emit (Echo (lit "- " ++ format_filename (file_name file)
                            ++ lit ": " ++ py_str inner_detail))
            | None => io_raise (Exn IndexError (lit "list index out of range"))
            end
       else io_ret tt) ;;;
      echo_details chunk (S i) rest
  end.

Definition handle_scan_chunk_error (detail0 : Detail) (chunk : list File)
  : io unit :=
  emit (LogError (status_code detail0) (detail detail0)) ;;;
  if status_is 401 (status_code detail0)
  then io_raise (Exn UsageError (detail detail0))
  else
  match status_code detail0 with
  | None =>
      io_raise (Exn ClickException
                  (lit "Error scanning, network error occurred: "
                   ++ detail detail0))
  | Some _ =>
      emit (DisplayError (LF :: lit "Error scanning. Results may be incomplete.")) ;;;
      let details :=
        match literal_eval (detail detail0) with
        | Ok v => Some v
        | Raise _ => None
        end in
      match details with
      | Some (PyList ((_ :: _) as details)) =>
          emit (DisplayError (lit "Add the following "
                              ++ pluralize (lit "file") (List.length details)
                              ++ lit " to your paths-ignore:")) ;;;
          echo_details chunk 0 details
      | _ =>
          let filenames := join (lit ", ") (map file_name chunk) in
          emit (DisplayError (lit "The following chunk is affected:"
                              ++ LF :: format_filename filenames)) ;;;
          emit (DisplayError (detail_str detail0))
      end
  end.

Definition _scan_chunk (n : nat) (chunk : list File) : future :=
  let documents := map (fun x => (document x, file_name x)) chunk in
  multi_content_scan n documents.

(** The loop of [_start_scans] over the remaining [files]; [futures] is the
    dictionary [chunks_for_futures] in insertion order. *)
Fixpoint start_scans_loop (files chunk skipped_chunk : list File)
  (futures : list (future * list File)) : io (list (future * list File)) :=
  match files with
  | [] =>
      futures <~ (match chunk with
                  | [] => io_ret futures
                  | _ =>
                      let fut := _scan_chunk (List.length futures) chunk in
                      emit (Submit chunk) ;;;
                      emit (Progress (List.length chunk)) ;;;
                      io_ret (futures ++ [(fut, chunk)])
                  end) ;;
      emit (Progress (List.length skipped_chunk)) ;;;
      io_ret futures
  | file :: files' =>
      match document file with
      | _ :: _ =>
          let chunk := chunk ++ [file] in
          if (Z.of_nat (List.length chunk) =? MULTI_DOCUMENT_LIMIT)%Z
          then
            let fut := _scan_chunk (List.length futures) chunk in
            emit (Submit chunk) ;;;
            emit (Progress (List.length chunk)) ;;;
            start_scans_loop files' [] skipped_chunk (futures ++ [(fut, chunk)])
          else start_scans_loop files' chunk skipped_chunk futures
      | [] => start_scans_loop files' chunk (skipped_chunk ++ [file]) futures
      end
  end.

Definition _start_scans (files : list File) : io (list (future * list File)) :=
  start_scans_loop files [] [] [].

(** The inner loop [for file, scanned in zip(chunk, scan.scan_results)]. *)
Fixpoint collect_scanned (pairs : list (File * ScanResult)) (results : list Result)
  : io (list Result) :=
  match pairs with
  | [] => io_ret results
  | (file, scanned) :: pairs' =>
      let scanned :=
        remove_results_from_ignore_detectors (remove_ignored_from_result scanned) in
      if has_policy_breaks scanned
      then
        (fold_right
           (fun policy_break rest =>
              emit (CacheAddFoundPolicyBreak policy_break (file_name file)) ;;; rest)
           (io_ret tt) (policy_breaks scanned)) ;;;
        collect_scanned pairs'
          (results ++ [{| content := document file; scan := scanned;
                          filemode := file_mode file;
                          filename := file_name file |}])
      else collect_scanned pairs' results
  end.

(** One turn of the loop over the completed futures. *)
Definition collect_future (fc : future * list File)
  (acc : list Result * list Error) : io (list Result * list Error) :=
  let '(fut, chunk) := fc in
  let '(results, errors) := acc in
  let '(scan, errors) :=
    match fut with
    | Returned r => (r, errors)
    | Raised exception =>
        let scan := {| detail := exn_str exception; status_code := None |} in
        (RDetail scan,
         errors ++ [{| files := map (fun file => (file_name file, file_mode file)) chunk;
                       description := detail scan |}])
    end in
  if negb (success scan)
  then
    match scan with
    | RDetail d => handle_scan_chunk_error d chunk ;;; io_ret (results, errors)
    | RMulti _ =>
        io_raise (Exn AttributeError
                    (lit "'MultiScanResult' object has no attribute 'detail'"))
    end
  else
    match scan with
    | RMulti m =>
        results <~ collect_scanned (combine chunk (scan_results m)) results ;;
        io_ret (results, errors)
    | RDetail _ =>
        io_raise (Exn AttributeError
                    (lit "'Detail' object has no attribute 'scan_results'"))
    end.

Fixpoint collect_loop (completed : list (future * list File))
  (acc : list Result * list Error) : io (list Result * list Error) :=
  match completed with
  | [] => io_ret acc
  | fc :: rest => acc <~ collect_future fc acc ;; collect_loop rest acc
  end.

Definition _collect_results (chunks_for_futures : list (future * list File))
  : io Results :=
  emit CachePurge ;;;
  acc <~ collect_loop (as_completed chunks_for_futures) ([], []) ;;
  emit CacheSave ;;;
  io_ret {| results := fst acc; errors := snd acc |}.

Definition scan_files (files : list File) : io Results :=
  chunks_for_futures <~ _start_scans files ;;
  _collect_results chunks_for_futures.

End Scanner.

(* ------------------------------------------------------------------ *)
(** ** Binary64 arithmetic for the size limit

    [DOCUMENT_SIZE_THRESHOLD_BYTES * 0.90] is a product of an [int] by a
    [float].  A finite double is kept as [mant * 2^expo]; conversions and
    products round to 53 significant bits, ties to even.  Overflow and
    subnormal results, out of reach for a byte count, are not modelled. *)

Record float := { mant : Z; expo : Z }.

Definition round53 (m e : Z) : float :=
  let a := Z.abs m in
  if (a <? 2 ^ 53)%Z then {| mant := m; expo := e |}
  else
    let sh := (Z.log2 a - 52)%Z in
    let q := (a / 2 ^ sh)%Z in
    let r := (a mod 2 ^ sh)%Z in
    let half := (2 ^ (sh - 1))%Z in
    let q' :=
      if (r <? half)%Z then q
      else if (half <? r)%Z then (q + 1)%Z
      else if Z.even q then q else (q + 1)%Z in
    {| mant := (Z.sgn m * q')%Z; expo := (e + sh)%Z |}.

Definition float_of_int (n : Z) : float := round53 n 0.

Definition float_mul (x y : float) : float :=
  round53 (mant x * mant y) (expo x + expo y).

(** The literal [0.90]: the double 0x3FECCCCCCCCCCCCD. *)
Definition float_0_90 : float :=
  {| mant := 8106479329266893; expo := -53 |}.

(** [n > x] for an [int] and a [float]: Python compares the exact values. *)
Definition int_gt_float (n : Z) (x : float) : bool :=
  if (0 <=? expo x)%Z then (mant x * 2 ^ expo x <? n)%Z
  else (mant x <? n * 2 ^ (- expo x))%Z.

(* ------------------------------------------------------------------ *)
(** ** Patch body splitter *)

(** Surrogate code points (U+D800 to U+DFFF) cannot be encoded. *)
Definition is_surrogate (c : char) : bool :=
  (55296 <=? c)%N && (c <=? 57343)%N.

(** Bytes of one code point in UTF-8, [None] for a surrogate. *)
Definition utf8_width (c : char) : option Z :=
  if (c <? 128)%N then Some 1%Z
  else if (c <? 2048)%N then Some 2%Z
  else if is_surrogate c then None
  else if (c <? 65536)%N then Some 3%Z
  else Some 4%Z.

(** Length of the run of surrogates at the head of [s]. *)
Fixpoint surrogate_run (s : str) : nat :=
  match s with
  | c :: s' => if is_surrogate c then S (surrogate_run s') else 0
  | [] => 0
  end.

(** [str(n)] for a position, and ['%04x' % c]. *)
Definition decimal (n : nat) : str :=
  lit (NilZero.string_of_uint (Nat.to_uint n)).

Definition hex_digit (d : N) : char :=
  if (d <? 10)%N then (48 + d)%N else (87 + d)%N.

Definition hex4 (c : char) : str :=
  [hex_digit ((c / 4096) mod 16)%N; hex_digit ((c / 256) mod 16)%N;
   hex_digit ((c / 16) mod 16)%N; hex_digit (c mod 16)%N].

(** The [UnicodeEncodeError] of the strict UTF-8 encoder: it reports the
    run of surrogates that starts at [start], naming the character when
    the run is a single one. *)
Definition surrogates_not_allowed (bad : char) (start run : nat) : exn :=
  Exn UnicodeEncodeError
    (if Nat.eqb run 1
     then lit "'utf-8' codec can't encode character '\u" ++ hex4 bad
          ++ lit "' in position " ++ decimal start
          ++ lit ": surrogates not allowed"
     else lit "'utf-8' codec can't encode characters in position "
          ++ decimal start ++ lit "-" ++ decimal (start + run - 1)
          ++ lit ": surrogates not allowed").

(** [len(s.encode("utf-8"))], reading [s] from position [pos] on. *)
Fixpoint utf8_len_from (pos : nat) (s : str) : result Z :=
  match s with
  | [] => Ok 0%Z
  | c :: s' =>
      match utf8_width c with
      | None => Raise (surrogates_not_allowed c pos (surrogate_run s))
      | Some w =>
          n <- utf8_len_from (S pos) s' ;;
          Ok (w + n)%Z
      end
  end.

Definition utf8_len (s : str) : result Z := utf8_len_from 0 s.

(** [re.split(r"^diff ", rest, flags=re.MULTILINE)]; [bol] tells whether
    the position is at the beginning of a line. *)
Fixpoint diff_split (bol : bool) (skip : nat) (s : str) : list str :=
  match s with
  | [] => [[]]
  | c :: s' =>
      match skip with
      | S k => diff_split false k s'
      | O =>
          if bol && starts_with (lit "diff ") s
          then [] :: diff_split false 4 s'
          else cons_head c (diff_split (N.eqb c LF) 0 s')
      end
  end.

(** [zip(names_and_modes, diffs)] with a lazy first argument: each turn
    pulls the generator first, so a pull that raises is seen even when
    [diffs] is exhausted. *)
Fixpoint zip_lazy {A B} (pulls : list (result A)) (l : list B) : gen (A * B) :=
  match pulls with
  | [] => gen_done []
  | Raise e :: _ => gen_raise e
  | Ok a :: pulls' =>
      match l with
      | [] => gen_done []
      | b :: l' => gen_cons (a, b) (zip_lazy pulls' l')
      end
  end.

(** A [for] loop over a generator whose body yields. *)
Definition gen_for {A B} (g : gen A) (body : A -> gen B) : gen B :=
  fold_right (fun a rest => gen_app (body a) rest)
             (Gen [] (raised g)) (yielded g).

Section Patch.

Variable is_filepath_excluded : str -> bool.
Variable DOCUMENT_SIZE_THRESHOLD_BYTES : Z.

Definition hunk_marker : str := LF :: lit "@@".

(** The body of the loop over [(filename, filemode), diff]. *)
Definition parse_patch_file (entry : (str * Filemode) * str) : gen File :=
  let '((filename, filemode), diff) := entry in
  if is_filepath_excluded filename then gen_done []
  else
    match find hunk_marker diff with
    | None => gen_done []
    | Some end_of_headers =>
        let document := skipn (end_of_headers + 1) diff in
        match utf8_len document with
        | Raise e => gen_raise e
        | Ok file_size =>
            if int_gt_float file_size
                 (float_mul (float_of_int DOCUMENT_SIZE_THRESHOLD_BYTES) float_0_90)
            then gen_done []
            else
              match document with
              | _ :: _ => gen_done [CommitFile document filename filemode]
              | [] => gen_done []
              end
        end
    end.

(** The body of the loop over the sub-patches of a merge commit. *)
Definition parse_patch_commit (commit : str) : gen File :=
  match split_max (NUL :: lit "diff ") 1 commit with
  | [header; rest] =>
      let names_and_modes := _parse_patch_header header in
      let diffs := diff_split true 0 rest in
      gen_for (zip_lazy names_and_modes diffs) parse_patch_file
  | _ => gen_done []
  end.

Definition _parse_patch (patch : str) : gen File :=
  gen_for (gen_done (split (NUL :: lit "commit ") patch)) parse_patch_commit.

End Patch.

(* ------------------------------------------------------------------ *)
(** ** Commit *)

Record CommitInformation := {
  author : str;
  email : str;
  date : str
}.

(** The mutable attributes of a [Commit] instance. *)
Record Commit := {
  sha : option str;
  _patch : option str;
  _files : list File;
  _info : option CommitInformation
}.

(** [Commit(sha, exclusion_regexes)] *)
Definition Commit_init (sha : option str) : Commit :=
  {| sha := sha; _patch := None; _files := []; _info := None |}.

(** A method of [Commit]: the events, the instance afterwards (kept when
    the method raises), and the value or the exception. *)
Definition method (A : Type) : Type := Commit -> list event * Commit * result A.

Definition m_ret {A} (a : A) : method A := fun self => ([], self, Ok a).
Definition m_raise {A} (e : exn) : method A := fun self => ([], self, Raise e).
Definition m_emit (ev : event) : method unit := fun self => ([ev], self, Ok tt).
Definition m_get : method Commit := fun self => ([], self, Ok self).
Definition m_put (c : Commit) : method unit := fun _ => ([], c, Ok tt).

Definition m_bind {A B} (m : method A) (k : A -> method B) : method B :=
  fun self =>
    let '(tr, self1, r) := m self in
    match r with
    | Ok a => let '(tr2, self2, r2) := k a self1 in (tr ++ tr2, self2, r2)
    | Raise e => (tr, self1, Raise e)
    end.

(** [try: m except Exception as exc: raise wrap(exc)] *)
Definition m_rewrap {A} (m : method A) (wrap : exn -> exn) : method A :=
  fun self =>
    let '(tr, self1, r) := m self in
    match r with
    | Ok a => (tr, self1, Ok a)
    | Raise e => (tr, self1, Raise (wrap e))
    end.

Notation "x <-- m ;; k" := (m_bind m (fun x => k))
  (at level 61, m at next level, right associativity).
Notation "m `then` k" := (m_bind m (fun _ => k))
  (at level 61, right associativity).

(** Truth value of an [Optional[str]]. *)
Definition str_truthy (s : option str) : bool :=
  match s with
  | Some (_ :: _) => true
  | _ => false
  end.

(** [str(x)] for an [Optional[str]] inside an f-string. *)
Definition opt_str (s : option str) : str :=
  match s with
  | Some s => s
  | None => lit "None"
  end.

(** The exception raised by [get_files] in place of [exc]. *)
Definition patch_parse_error (sha : option str) (exc : exn) : exn :=
  Exn PatchParseError
    (lit "Could not parse patch (sha: " ++ opt_str sha ++ lit "): "
     ++ exn_str exc).

Section CommitAccessors.

Variable is_filepath_excluded : str -> bool.
Variable DOCUMENT_SIZE_THRESHOLD_BYTES : Z.
Variable GIT_PATH : str.
(** [ggshield.core.git_shell.shell]: runs git, returns its output or
    raises. *)
Variable shell : list str -> result str.
(** [REGEX_HEADER_INFO.search(patch)], with the groups of a match. *)
Variable header_info_search : str -> option CommitInformation.

Definition common_args : list str :=
  [lit "--raw"; lit "-z"; lit "--patch"; lit "-m"].

Definition patch : method str :=
  self <-- m_get ;;
  match _patch self with
  | Some p => m_ret p
  | None =>
      let argv :=
        if str_truthy (sha self)
        then [GIT_PATH; lit "show"; opt_str (sha self)] ++ common_args
        else [GIT_PATH; lit "diff"; lit "--cached"] ++ common_args in
      m_emit (GitShell argv) `then`
      match shell argv with
      | Raise e => m_raise e
      | Ok p =>
          m_put {| sha := sha self; _patch := Some p;
                   _files := _files self; _info := _info self |} `then`
          m_ret p
      end
  end.

Definition info : method CommitInformation :=
  self <-- m_get ;;
  match _info self with
  | Some i => m_ret i
  | None =>
      p <-- patch ;;
      self <-- m_get ;;
      let i :=
        match header_info_search p with
        | None => {| author := lit "unknown"; email := []; date := [] |}
        | Some m => m
        end in
      m_put {| sha := sha self; _patch := _patch self;
               _files := _files self; _info := Some i |} `then`
      m_ret i
  end.

(** [list(self.get_files())]: the generator is run to its end. *)
Definition get_files : method (list File) :=
  self <-- m_get ;;
  m_rewrap
    (p <-- patch ;;
     match gen_list (_parse_patch is_filepath_excluded
                       DOCUMENT_SIZE_THRESHOLD_BYTES p) with
     | Ok l => m_ret l
     | Raise e => m_raise e
     end)
    (patch_parse_error (sha self)).

Definition Commit_files : method (list File) :=
  self <-- m_get ;;
  match _files self with
  | [] =>
      m_emit ParsePatch `then`
      l <-- get_files ;;
      self <-- m_get ;;
      m_put {| sha := sha self; _patch := _patch self;
               _files := l; _info := _info self |} `then`
      m_ret l
  | l => m_ret l
  end.

(** Reads of the three lazy accessors. *)
Inductive read := ReadPatch | ReadFiles | ReadInfo.

Definition do_read (r : read) : method unit :=
  match r with
  | ReadPatch => patch `then` m_ret tt
  | ReadFiles => Commit_files `then` m_ret tt
  | ReadInfo => info `then` m_ret tt
  end.

(** A sequence of reads; a caller that catches an exception can go on
    reading, so the sequence continues after a read that raised. *)
Fixpoint do_reads (rs : list read) (self : Commit) : list event * Commit :=
  match rs with
  | [] => ([], self)
  | r :: rs' =>
      let '(tr, self1, _) := do_read r self in
      let '(tr2, self2) := do_reads rs' self1 in
      (tr ++ tr2, self2)
  end.

End CommitAccessors.

Definition is_git_shell (ev : event) : bool :=
  match ev with GitShell _ => true | _ => false end.

Definition is_parse_patch (ev : event) : bool :=
  match ev with ParsePatch => true | _ => false end.

(** Number of external git invocations, and of realizations of the lazy
    parse, in a trace. *)
Definition git_invocations (tr : list event) : nat :=
  List.length (filter is_git_shell tr).

Definition parse_realizations (tr : list event) : nat :=
  List.length (filter is_parse_patch tr).

(* ================================================================== *)
(** * Notions of the specification and sample inputs *)

Unset Implicit Arguments.

Definition own_results (n : ScanCollection) : list Result :=
  match sc_results n with
  | Some r => results r
  | None => []
  end.

Definition leaf (name : string) (r : option Results)
  (children : option (list ScanCollection)) : ScanCollection :=
  {| sc_id := lit name; sc_type := lit "commit"; sc_results := r;
     scans := children; iac_result := None; optional_header := None;
     extra_info := None |}.

Definition sample_result (name : string) : Result :=
  {| content := lit "password = 1234"; filemode := NEW; filename := lit name;
     scan := {| policy_break_count := 1; policy_breaks := []; policies := [] |} |}.

Definition empty_results : Results := {| results := []; errors := [] |}.

(** A node, its child and a grandchild, each with one result. *)
Definition grandchild : ScanCollection :=
  leaf "grandchild" (Some {| results := [sample_result "deep"]; errors := [] |}) None.
Definition middle_child : ScanCollection :=
  leaf "child" (Some {| results := [sample_result "mid"]; errors := [] |})
       (Some [grandchild]).
Definition three_levels : ScanCollection :=
  leaf "root" (Some {| results := [sample_result "top"]; errors := [] |})
       (Some [middle_child]).

(** A node whose only child carries a [Results] with nothing in it. *)
Definition hollow_child : ScanCollection := leaf "child" (Some empty_results) None.
Definition hollow_parent : ScanCollection := leaf "root" None (Some [hollow_child]).

Definition letter (s : string) : char := hd NUL (lit s).

(** The priority order of the specification, with the filemode of each
    status letter. *)
Definition status_priority : list (char * Filemode) :=
  [(letter "M", MODIFY); (letter "C", NEW); (letter "A", NEW);
   (letter "T", NEW); (letter "R", RENAME); (letter "D", DELETE)].

(** First letter of the priority order that occurs in [status]. *)
Definition classify_by_priority (status : str) : option Filemode :=
  option_map snd (List.find (fun p => mem (fst p) status) status_priority).

Definition status_letters : list char := map fst status_priority.

Definition is_digit (c : char) : bool := mem c digits.

(** A raw header line as [git ... --raw -z] writes it: a prefix whose last
    space-separated token is the status letters and an optional score,
    then the NUL-separated name(s), then [trail] closing NULs. *)
Definition name_fields (name : str) (new : option str) : str :=
  name ++ match new with Some n => NUL :: n | None => [] end.

Definition raw_line (pre status score name : str) (new : option str)
  (trail : nat) : str :=
  (pre ++ SP :: status ++ score) ++ NUL :: name_fields name new
  ++ repeat NUL trail.

Definition effective_name (name : str) (new : option str) : str :=
  match new with Some n => n | None => name end.

Definition path_ok (p : str) : Prop := p <> [] /\ mem NUL p = false.

Definition fields_ok (pre score name : str) (new : option str) : Prop :=
  mem NUL pre = false /\
  Forall (fun c => is_digit c = true) score /\
  path_ok name /\
  match new with Some n => path_ok n | None => True end.

Definition status_ok (status : str) : Prop :=
  Forall (fun c => c <> NUL /\ c <> SP /\ is_digit c = false) status.



Definition merge_prefix : str := lit "::100644 100644 100644 fabadb8 cc95eb0 4866510".


Definition index_error : exn := Exn IndexError (lit "list index out of range").

(** [ast.literal_eval] on the one text used below. *)
Definition literal_eval_sample (s : str) : result pyvalue :=
  if str_eqb s (lit "['too large', 'too large']")
  then Ok (PyList [PyStr (lit "too large"); PyStr (lit "too large")])
  else Raise (Exn ValueError (lit "malformed node or string")).

Definition sample_file (name : string) : File :=
  {| document := lit "password = 1234"; file_name := lit name; file_mode := FILE |}.

Definition sample_detail : Detail :=
  {| detail := lit "['too large', 'too large']"; status_code := Some 400%Z |}.

(** A batch whose submission returned a successful scan. *)
Definition succeeded (fc : future * list File) : Prop :=
  exists m, fst fc = Returned (RMulti m) /\ multi_status_code m = Some 200%Z.

Definition network_error (exc : exn) : exn :=
  Exn ClickException
    (lit "Error scanning, network error occurred: " ++ exn_str exc).

Definition connection_error : exn :=
  Exn (OtherError (lit "ConnectionError")) (lit "connection refused").

(** One file, one batch, and a remote call that raises. *)
Definition failing_scan : io Results :=
  scan_files literal_eval_sample (fun _ => []) (fun d => detail d)
    (fun s => s) (fun s _ => s) (fun r => r) (fun r => r) 20%Z
    (fun _ _ => Raised connection_error) (fun l => l)
    [sample_file "a.txt"].

Definition is_read_files (r : read) : bool :=
  match r with ReadFiles => true | _ => false end.

(** Number of reads of [files] in a sequence of reads. *)
Definition files_reads (rs : list read) : nat :=
  List.length (filter is_read_files rs).

(** States a [Commit] goes through when git prints [the_patch] and it
    parses into [the_files]: nothing cached before the patch is fetched,
    and afterwards the cached file list is empty or the parsed one. *)
Definition reachable (the_patch : str) (the_files : list File) (c : Commit)
  : Prop :=
  match _patch c with
  | None => _files c = [] /\ _info c = None
  | Some p => p = the_patch /\ (_files c = [] \/ _files c = the_files)
  end.

Definition trace_of (x : list event * Commit * result unit) : list event :=
  fst (fst x).
Definition state_of (x : list event * Commit * result unit) : Commit :=
  snd (fst x).

(** Patch text with [|] standing for NUL and [^] for a newline. *)
Definition patch_lit (s : string) : str :=
  map (fun c => if N.eqb c 124 then NUL else if N.eqb c 94 then LF else c)
      (lit s).

(** What [git show] prints for a commit that changes no file. *)
Definition empty_commit_patch : str :=
  patch_lit "commit 9537b6f^Author: A <a@example.com>^Date:   Thu Jan 1^^    empty^".


(** A patch whose only header line carries the unknown status letter X. *)
Definition unknown_status_patch : str :=
  patch_lit ":100644 100644 bcd1234 0123456 X|file0||diff --git a/file0 b/file0^@@ -1 +1 @@^+new^".

(** A node with a child that carries no [Results]. *)
Definition bare_parent : ScanCollection :=
  leaf "root" (Some {| results := [sample_result "top"]; errors := [] |})
       (Some [leaf "child" None None]).





(** Two header entries, one body. *)
Definition two_headers_one_body : str :=
  patch_lit ":100644 100644 bcd1234 0123456 M|file0|:100644 100644 abcd123 1234567 R86|file1|file3||diff --git a/file0 b/file0^--- a/file0^+++ b/file0^@@ -1 +1 @@^-old^+new^".



(* ------------------------------------------------------------------ *)
(** ** Notions for the further properties *)

Definition nonempty_doc (f : File) : bool :=
  match document f with [] => false | _ => true end.

(** A file that could not be decoded: its document is the empty string. *)
Definition undecoded_file : File :=
  {| document := []; file_name := lit "blob.bin"; file_mode := FILE |}.

Definition progress_of (ev : event) : nat :=
  match ev with Progress n => n | _ => 0 end.

Definition progress_total (tr : list event) : nat :=
  list_sum (map progress_of tr).

Definition submitted_of (ev : event) : list (list File) :=
  match ev with Submit chunk => [chunk] | _ => [] end.

Definition submitted (tr : list event) : list (list File) :=
  flat_map submitted_of tr.

(** The results of one successful batch: the files whose scan result
    still has policy breaks once both filters have run. *)
Definition batch_results (rm_ignored rm_detectors : ScanResult -> ScanResult)
  (pairs : list (File * ScanResult)) : list Result :=
  flat_map
    (fun p =>
       let scanned := rm_detectors (rm_ignored (snd p)) in
       if has_policy_breaks scanned
       then [{| content := document (fst p); filemode := file_mode (fst p);
                filename := file_name (fst p); scan := scanned |}]
       else [])
    pairs.

(** The cache entries of one successful batch. *)
Definition batch_cache_adds (rm_ignored rm_detectors : ScanResult -> ScanResult)
  (pairs : list (File * ScanResult)) : list event :=
  flat_map
    (fun p =>
       let scanned := rm_detectors (rm_ignored (snd p)) in
       if has_policy_breaks scanned
       then map (fun policy_break =>
                   CacheAddFoundPolicyBreak policy_break (file_name (fst p)))
                (policy_breaks scanned)
       else [])
    pairs.

(** The (file, scan result) pairs of a finished future. *)
Definition scanned_pairs (fc : future * list File) : list (File * ScanResult) :=
  match fst fc with
  | Returned (RMulti m) => combine (snd fc) (scan_results m)
  | _ => []
  end.

Definition sample_break : PolicyBreak :=
  {| break_type := lit "Generic Password"; policy := lit "Secrets detection";
     matches := [lit "1234"] |}.

Definition scan_with_break : ScanResult :=
  {| policy_break_count := 1; policy_breaks := [sample_break];
     policies := [lit "Secrets detection"] |}.

Definition clean_scan : ScanResult :=
  {| policy_break_count := 0; policy_breaks := [];
     policies := [lit "Secrets detection"] |}.

(** A remote call that finds a secret in [a.txt] only. *)
Definition remote_finds_a (n : nat) (documents : list (str * str)) : future :=
  Returned
    (RMulti
       {| scan_results :=
            map (fun d => if str_eqb (snd d) (lit "a.txt")
                          then scan_with_break else clean_scan) documents;
          multi_status_code := Some 200%Z |}).

Definition passing_scan : io Results :=
  scan_files literal_eval_sample (fun _ => []) (fun d => detail d)
    (fun s => s) (fun s _ => s) (fun r => r) (fun r => r) 20%Z
    remote_finds_a (fun l => l)
    [sample_file "a.txt"; sample_file "b.txt"].

Definition passing_futures : list (future * list File) :=
  [(remote_finds_a 0 [(lit "password = 1234", lit "a.txt");
                      (lit "password = 1234", lit "b.txt")],
    [sample_file "a.txt"; sample_file "b.txt"])].

(** The line printed for one entry of the parsed detail list. *)
Definition detail_line (py_str : pyvalue -> str) (format_filename : str -> str)
  (p : File * pyvalue) : list event :=
  if py_truthy (snd p)
  then [Echo (lit "- " ++ format_filename (file_name (fst p))
              ++ lit ": " ++ py_str (snd p))]
  else [].

Definition is_line_sep (c d : char) : bool :=
  (N.eqb c LF || N.eqb c NUL) && N.eqb d COLON.

(** No newline or NUL is followed by a colon inside [s]. *)
Fixpoint line_sep_free (s : str) : bool :=
  match s with
  | c :: s' =>
      match s' with
      | d :: _ => negb (is_line_sep c d) && line_sep_free s'
      | [] => true
      end
  | [] => true
  end.

(** The raw header lines, each after its separator (a newline or a NUL,
    then the colon that opens the line). *)
Fixpoint header_lines (ls : list (char * str)) : str :=
  match ls with
  | [] => []
  | (c, l) :: ls' => c :: COLON :: l ++ header_lines ls'
  end.

Definition header_line_ok (cl : char * str) : Prop :=
  (fst cl = LF \/ fst cl = NUL) /\ line_sep_free (snd cl) = true.

Definition present (c : ScanCollection) : bool := results_truthy (sc_results c).

(** The children up to the first one without [Results]. *)
Fixpoint take_present (children : list ScanCollection) : list ScanCollection :=
  match children with
  | [] => []
  | c :: rest => if present c then c :: take_present rest else []
  end.

Definition none_has_no_results : exn :=
  Exn AttributeError (lit "'NoneType' object has no attribute 'results'").

(** The one git command a [Commit] runs. *)
Definition git_command (GIT_PATH : str) (sha0 : option str) : list str :=
  if str_truthy sha0
  then [GIT_PATH; lit "show"; opt_str sha0] ++ common_args
  else [GIT_PATH; lit "diff"; lit "--cached"] ++ common_args.

Definition runs_only (cmd : list str) (tr : list event) : Prop :=
  Forall (fun ev => match ev with GitShell argv => argv = cmd | _ => True end) tr.

(** A result comes from a file of the batch and still has policy breaks. *)
Definition result_of_file (r : Result) (file : File) : Prop :=
  content r = document file /\ filename r = file_name file /\
  filemode r = file_mode file /\ has_policy_breaks (scan r) = true.

(** Three files that go out in batches of two. *)
Definition three_files : list File :=
  [sample_file "a.txt"; sample_file "b.txt"; sample_file "c.txt"].

(** The result reported for [a.txt]. *)
Definition result_for_a : Result :=
  {| content := lit "password = 1234"; filemode := FILE;
     filename := lit "a.txt"; scan := scan_with_break |}.

(** The header of a [git show] patch: commit information, then two lines. *)
Definition show_info : str :=
  patch_lit "commit 9537b6f^Author: A <a@example.com>^Date:   Thu Jan 1^^    message^".

Definition line_modify : str := patch_lit "100644 100644 bcd1234 0123456 M|file0".
Definition line_rename : str := patch_lit "100644 100644 abcd123 1234567 R86|file1|file3|".

(** The file that [two_headers_one_body] holds. *)
Definition file0_modified : File :=
  CommitFile (patch_lit "@@ -1 +1 @@^-old^+new^") (lit "file0") MODIFY.


Definition octopus_prefix : str :=
  lit ":::100644 100644 100644 100644 fabadb8 cc95eb0 4866510 1234567".


(* ================================================================== *)
(** * Properties *)

(* ------------------------------------------------------------------ *)
(** ** Generators *)














(* ------------------------------------------------------------------ *)
(** ** Report model *)

Lemma gen_app_done {A} (l : list A) (g : gen A) :
  gen_app (gen_done l) g = Gen (l ++ yielded g) (raised g).
Proof. reflexivity. Qed.

Lemma yield_children_results_present (children : list ScanCollection) :
  Forall (fun c => sc_results c <> None) children ->
  yield_children_results children = gen_done (flat_map own_results children).
Proof.
  induction 1 as [|c cs Hc _ IH]; [reflexivity|].
  simpl. rewrite IH. unfold yield_child_results, own_results.
  destruct (sc_results c) as [r|]; [|congruence].
  reflexivity.
Qed.

(** On a child without [Results] the generator stops with
    [AttributeError], after the node's own results. *)
Example get_all_results_absent_child :
  get_all_results bare_parent
  = Gen [sample_result "top"]
        (Some (Exn AttributeError
                 (lit "'NoneType' object has no attribute 'results'"))).
Proof. reflexivity. Qed.

(** C10: [Results.from_exception(exc)] has an empty results list and
    exactly one error; that error attributes no file and its description
    is [str(exc)]. *)
Theorem from_exception_single_error (exc : exn) :
  results (from_exception exc) = [] /\
  exists error,
    errors (from_exception exc) = [error] /\
    files error = [] /\
    description error = exn_str exc.
Proof.
  split; [reflexivity|].
  eexists; repeat split.
Qed.

(** C7 as stated fails: a child whose [Results] holds no result and no
    error is still returned by [scans_with_results]. *)
Lemma scans_with_results_keeps_hollow_child :
  scans hollow_parent = Some [hollow_child] /\
  results_nonempty (sc_results hollow_child) = false /\
  scans_with_results hollow_parent = [hollow_child] /\
  scans_with_results hollow_parent
  <> filter (fun c => results_nonempty (sc_results c)) [hollow_child].
Proof.
  repeat split; try reflexivity; intro H; vm_compute in H; discriminate H.
Qed.

(** C7, amended: for a node with a non-empty list of children,
    [scans_with_results] returns, in list order, exactly the children
    whose [Results] is present (not [None]); whether that [Results] holds
    anything plays no role. *)
Theorem scans_with_results_present (self : ScanCollection)
  (children : list ScanCollection) :
  scans self = Some children ->
  children <> [] ->
  scans_with_results self
  = filter (fun c => match sc_results c with Some _ => true | None => false end)
           children
  /\ forall c, In c (scans_with_results self)
               <-> In c children /\ exists r, sc_results c = Some r.
Proof.
  intros Hs Hne.
  assert (E : scans_with_results self
              = filter (fun c => results_truthy (sc_results c)) children).
  { unfold scans_with_results. rewrite Hs.
    destruct children; [congruence | reflexivity]. }
  split; [exact E|].
  intro c. rewrite E, filter_In. unfold results_truthy.
  destruct (sc_results c) as [r|]; split; intros [Hin H]; split; eauto;
    try discriminate.
  destruct H; discriminate.
Qed.

Lemma scans_with_results_present_witness :
  scans_with_results hollow_parent = [hollow_child].
Proof.
  destruct (scans_with_results_present hollow_parent [hollow_child])
    as [E _]; [reflexivity | discriminate |].
  rewrite E. reflexivity.
Defined.

(** C1 as stated fails: the results of a grandchild belong to the subtree
    but [get_all_results] does not yield them. *)
Lemma get_all_results_skips_grandchild :
  scans three_levels = Some [middle_child] /\
  subtree_results three_levels
  = [sample_result "top"; sample_result "mid"; sample_result "deep"] /\
  get_all_results three_levels
  = gen_done [sample_result "top"; sample_result "mid"] /\
  get_all_results three_levels <> gen_done (subtree_results three_levels).
Proof.
  repeat split; try reflexivity; intro H; vm_compute in H; discriminate H.
Qed.

(** C1, amended: for a node with a non-empty list of children that all
    carry a [Results], [get_all_results] ends normally and yields the
    node's own results (none when its [Results] is absent) followed by
    the own results of each direct child, in list order; nothing deeper
    in the tree is yielded. *)
Theorem get_all_results_one_level (self : ScanCollection)
  (children : list ScanCollection) :
  scans self = Some children ->
  children <> [] ->
  Forall (fun c => sc_results c <> None) children ->
  get_all_results self
  = gen_done (own_results self ++ flat_map own_results children).
Proof.
  intros Hs Hne Hall.
  unfold get_all_results. rewrite Hs.
  destruct children as [|c cs]; [congruence|].
  rewrite (yield_children_results_present _ Hall).
  change (own_results self)
    with (match sc_results self with Some r => results r | None => [] end).
  destruct (sc_results self); reflexivity.
Qed.

Lemma get_all_results_one_level_witness :
  get_all_results three_levels
  = gen_done [sample_result "top"; sample_result "mid"].
Proof.
  apply (get_all_results_one_level three_levels [middle_child]).
  - reflexivity.
  - discriminate.
  - repeat constructor. discriminate.
Defined.

(* ------------------------------------------------------------------ *)
(** ** String operations *)

Lemma mem_app c a b : mem c (a ++ b) = mem c a || mem c b.
Proof.
  induction a as [|x a IH]; simpl; [reflexivity|].
  rewrite IH. apply orb_assoc.
Qed.

Lemma mem_false_last c s x : mem c (s ++ [x]) = false -> x <> c.
Proof.
  rewrite mem_app. simpl. intros H Hx. subst x.
  rewrite N.eqb_refl in H. rewrite !orb_true_r in H. discriminate.
Qed.

Lemma contains_char c s : contains [c] s = mem c s.
Proof.
  unfold contains.
  induction s as [|x s IH]; [reflexivity|].
  cbn [find starts_with mem]. rewrite (N.eqb_sym c x).
  destruct (N.eqb x c); cbn.
  - destruct s; reflexivity.
  - destruct (find [c] s); cbn in *; exact IH.
Qed.

Lemma rstrip_all chars t :
  Forall (fun c => mem c chars = true) t -> rstrip chars t = [].
Proof.
  induction 1 as [|c t Hc _ IH]; [reflexivity|].
  simpl. rewrite IH, Hc. reflexivity.
Qed.

Lemma rstrip_keeps_last chars s c :
  mem c chars = false -> rstrip chars (s ++ [c]) = s ++ [c].
Proof.
  intro Hc. induction s as [|x s IH]; simpl.
  - rewrite Hc. reflexivity.
  - rewrite IH. destruct (s ++ [c]) eqn:E; [|reflexivity].
    destruct s; discriminate.
Qed.

Lemma rstrip_app chars s t :
  rstrip chars t <> [] -> rstrip chars (s ++ t) = s ++ rstrip chars t.
Proof.
  intro Ht. induction s as [|x s IH]; [reflexivity|].
  simpl. rewrite IH.
  destruct (s ++ rstrip chars t) eqn:E; [|reflexivity].
  apply app_eq_nil in E. tauto.
Qed.

Lemma rstrip_app_all chars u t :
  Forall (fun x => mem x chars = true) t ->
  rstrip chars (u ++ t) = rstrip chars u.
Proof.
  intro Ht. induction u as [|x u IH]; simpl.
  - apply rstrip_all, Ht.
  - rewrite IH. reflexivity.
Qed.

Lemma rstrip_suffix chars s c t :
  mem c chars = false ->
  Forall (fun x => mem x chars = true) t ->
  rstrip chars ((s ++ [c]) ++ t) = s ++ [c].
Proof.
  intros Hc Ht.
  rewrite rstrip_app_all by exact Ht.
  apply rstrip_keeps_last, Hc.
Qed.

Lemma split_cons c x s :
  split [c] (x :: s)
  = if N.eqb c x then [] :: split [c] s else cons_head x (split [c] s).
Proof.
  unfold split. cbn [split_from starts_with].
  destruct (N.eqb c x); cbn; destruct s; reflexivity.
Qed.

Lemma split_no_sep c s : mem c s = false -> split [c] s = [s].
Proof.
  induction s as [|x s IH]; [reflexivity|].
  simpl. intro H. apply orb_false_elim in H. destruct H as [Hx Hs].
  rewrite split_cons, (N.eqb_sym c x), Hx, (IH Hs). reflexivity.
Qed.

Lemma split_app_sep c a b :
  mem c a = false -> split [c] (a ++ c :: b) = a :: split [c] b.
Proof.
  induction a as [|x a IH]; simpl; intro H.
  - rewrite split_cons, N.eqb_refl. reflexivity.
  - apply orb_false_elim in H. destruct H as [Hx Ha].
    rewrite split_cons, (N.eqb_sym c x), Hx, (IH Ha). reflexivity.
Qed.

(** Splitting on a character loses nothing: joining the fields with it
    gives the string back. *)
Lemma join_split c s : join [c] (split [c] s) = s.
Proof.
  induction s as [|x s IH]; [reflexivity|].
  rewrite split_cons. destruct (N.eqb c x) eqn:E.
  - apply N.eqb_eq in E. subst x.
    destruct (split [c] s) as [|h t] eqn:Es.
    + destruct s; [discriminate Es|].
      rewrite split_cons in Es. destruct (N.eqb c c0);
        [discriminate Es | destruct (split [c] s); discriminate Es].
    + change (join [c] ([] :: h :: t)) with (c :: join [c] (h :: t)).
      rewrite IH. reflexivity.
  - destruct (split [c] s) as [|h t] eqn:Es.
    + cbn in IH. subst s. discriminate Es.
    + cbn [cons_head]. rewrite <- IH. destruct t; reflexivity.
Qed.

Lemma after_last_app c a b :
  mem c b = false -> after_last c (a ++ c :: b) = b.
Proof.
  intro Hb. induction a as [|x a IH]; simpl.
  - rewrite Hb, N.eqb_refl. reflexivity.
  - rewrite mem_app. simpl. rewrite N.eqb_refl, orb_true_r. exact IH.
Qed.

Lemma rsplit1_last_app c a b :
  mem c b = false -> last (rsplit1 c (a ++ c :: b)) [] = b.
Proof.
  intro Hb. unfold rsplit1.
  rewrite mem_app. simpl. rewrite N.eqb_refl, orb_true_r.
  simpl. apply after_last_app, Hb.
Qed.

(* ------------------------------------------------------------------ *)
(** ** Patch header parser *)

Lemma mem_false_forall (P : char -> Prop) x s :
  (forall c, P c -> c <> x) -> Forall P s -> mem x s = false.
Proof.
  intros HP. induction 1 as [|c s Hc _ IH]; [reflexivity|].
  simpl. rewrite IH, orb_false_r. apply N.eqb_neq, HP, Hc.
Qed.

Lemma digit_not (x : char) c :
  is_digit x = false -> is_digit c = true -> c <> x.
Proof. intros Hx Hc E. subst. congruence. Qed.

Lemma path_ok_last p : path_ok p -> exists s c, p = s ++ [c] /\ c <> NUL.
Proof.
  intros [Hne Hmem].
  destruct (exists_last Hne) as [s [c E]]. subst p.
  exists s, c. split; [reflexivity|]. eapply mem_false_last, Hmem.
Qed.

Lemma name_fields_last name new :
  path_ok name ->
  match new with Some n => path_ok n | None => True end ->
  exists s c, name_fields name new = s ++ [c] /\ c <> NUL.
Proof.
  intros Hname Hnew. unfold name_fields. destruct new as [n|].
  - destruct (path_ok_last _ Hnew) as [s [c [E Hc]]]. subst n.
    exists (name ++ NUL :: s), c. split; [|exact Hc].
    rewrite <- app_assoc. reflexivity.
  - destruct (path_ok_last _ Hname) as [s [c [E Hc]]].
    exists s, c. rewrite app_nil_r. tauto.
Qed.

Lemma repeat_strippable c k :
  Forall (fun x => mem x [c] = true) (repeat c k).
Proof.
  induction k; simpl; constructor; [|assumption].
  simpl. rewrite N.eqb_refl. reflexivity.
Qed.

Lemma prefix_no_nul pre status score :
  mem NUL pre = false -> status_ok status ->
  Forall (fun c => is_digit c = true) score ->
  mem NUL (pre ++ SP :: status ++ score) = false.
Proof.
  intros Hpre Hst Hsc.
  assert (H1 : mem NUL status = false).
  { eapply mem_false_forall; [|exact Hst]. intros c H. apply H. }
  assert (H2 : mem NUL score = false).
  { eapply mem_false_forall; [|exact Hsc].
    intros c H. eapply digit_not; [reflexivity | exact H]. }
  rewrite mem_app, Hpre. simpl. rewrite mem_app, H1, H2. reflexivity.
Qed.

Lemma header_line_fields pre status score name new trail :
  fields_ok pre score name new -> status_ok status ->
  split [NUL] (rstrip [NUL] (raw_line pre status score name new trail))
  = (pre ++ SP :: status ++ score) :: name
    :: match new with Some n => [n] | None => [] end.
Proof.
  intros (Hpre & Hsc & Hname & Hnew) Hst. unfold raw_line.
  destruct (name_fields_last _ _ Hname Hnew) as [s [c [E Hc]]].
  assert (R : rstrip [NUL]
                ((pre ++ SP :: status ++ score) ++ NUL :: name_fields name new
                 ++ repeat NUL trail)
              = (pre ++ SP :: status ++ score) ++ NUL :: name_fields name new).
  { rewrite E.
    replace ((pre ++ SP :: status ++ score) ++ NUL :: (s ++ [c]) ++ repeat NUL trail)
      with ((((pre ++ SP :: status ++ score) ++ NUL :: s) ++ [c]) ++ repeat NUL trail)
      by (repeat (rewrite <- ?app_assoc; simpl); reflexivity).
    rewrite rstrip_suffix.
    - repeat (rewrite <- ?app_assoc; simpl). reflexivity.
    - cbn [mem]. rewrite orb_false_r. apply N.eqb_neq. congruence.
    - apply repeat_strippable. }
  rewrite R.
  rewrite split_app_sep by (apply prefix_no_nul; assumption).
  f_equal. unfold name_fields. destruct Hname as [_ Hname].
  destruct new as [n|].
  - rewrite split_app_sep by exact Hname.
    destruct Hnew as [_ Hn]. rewrite (split_no_sep _ _ Hn). reflexivity.
  - rewrite app_nil_r. apply split_no_sep, Hname.
Qed.

Lemma status_of_raw_prefix pre status score :
  status_ok status -> Forall (fun c => is_digit c = true) score ->
  status_of_prefix (pre ++ SP :: status ++ score) = status.
Proof.
  intros Hst Hsc. unfold status_of_prefix.
  assert (H1 : mem SP status = false).
  { eapply mem_false_forall; [|exact Hst]. intros c H. apply H. }
  assert (H2 : mem SP score = false).
  { eapply mem_false_forall; [|exact Hsc].
    intros c H. eapply digit_not; [reflexivity | exact H]. }
  rewrite rsplit1_last_app by (rewrite mem_app, H1, H2; reflexivity).
  destruct status as [|x status'] eqn:E.
  - apply rstrip_all, Hsc.
  - rewrite <- E in *. assert (Hne : status <> []) by (rewrite E; discriminate).
    destruct (exists_last Hne) as [s [c Hs]]. rewrite Hs in *.
    apply rstrip_suffix; [|exact Hsc].
    apply Forall_app in Hst. destruct Hst as [_ Hc].
    inversion Hc; subst. tauto.
Qed.

Lemma header_line_classification pre status score name new trail :
  fields_ok pre score name new -> status_ok status ->
  _parse_patch_header_line (raw_line pre status score name new trail)
  = match classify_by_priority status with
    | Some mode => Ok (effective_name name new, mode)
    | None =>
        Raise (Exn ValueError
                 (lit "Can't parse header line "
                  ++ raw_line pre status score name new trail
                  ++ lit ": unknown status " ++ status))
    end.
Proof.
  intros Hf Hst. unfold _parse_patch_header_line.
  rewrite (header_line_fields _ _ _ _ _ trail Hf Hst).
  destruct Hf as (_ & Hsc & _).
  rewrite (status_of_raw_prefix pre _ _ Hst Hsc).
  change (lit "M") with [letter "M"]. change (lit "C") with [letter "C"].
  change (lit "A") with [letter "A"]. change (lit "T") with [letter "T"].
  change (lit "R") with [letter "R"]. change (lit "D") with [letter "D"].
  rewrite !contains_char.
  unfold classify_by_priority, status_priority. cbn [List.find fst snd].
  assert (E : match match new with Some n => [n] | None => [] end with
              | r :: _ => r | [] => name end = effective_name name new)
    by (destruct new; reflexivity).
  rewrite E.
  repeat match goal with
         | |- context [mem ?c status] => destruct (mem c status)
         end; reflexivity.
Qed.

Lemma status_letters_ok a b :
  In a status_letters -> In b status_letters -> status_ok [a; b].
Proof.
  intros Ha Hb. repeat constructor;
    first [ intro E; subst; cbn in Ha, Hb;
            repeat (destruct Ha as [Ha|Ha]; try discriminate Ha);
            repeat (destruct Hb as [Hb|Hb]; try discriminate Hb); contradiction
          | cbn in Ha, Hb;
            repeat (destruct Ha as [Ha|Ha]; [subst; reflexivity|]);
            repeat (destruct Hb as [Hb|Hb]; [subst; reflexivity|]);
            contradiction ].
Qed.



Example header_line_modify :
  _parse_patch_header_line (patch_lit ":100644 100644 bcd1234 0123456 M|file0|")
  = Ok (lit "file0", MODIFY).
Proof. vm_compute. reflexivity. Qed.

Example header_line_copy :
  _parse_patch_header_line (patch_lit ":100644 100644 abcd123 1234567 C68|file1|file2|")
  = Ok (lit "file2", NEW).
Proof. vm_compute. reflexivity. Qed.

Example header_line_merge :
  _parse_patch_header_line
    (patch_lit "::100644 100644 100644 fabadb8 cc95eb0 4866510 MD|desc.c")
  = Ok (lit "desc.c", MODIFY).
Proof. vm_compute. reflexivity. Qed.

Example header_line_unknown :
  _parse_patch_header_line (patch_lit ":100644 100644 bcd1234 0123456 X|file0|")
  = Raise (Exn ValueError
             (lit "Can't parse header line "
              ++ patch_lit ":100644 100644 bcd1234 0123456 X|file0|"
              ++ lit ": unknown status X")).
Proof. vm_compute. reflexivity. Qed.

(** C2: on a raw header line whose status field is two valid status
    letters, the filemode is that of the first letter of the order
    M, C, A, T, R, D present among the two; in particular it is [MODIFY]
    as soon as one of them is "M", whatever the other. *)
Theorem merge_status_priority pre a b score name new trail :
  fields_ok pre score name new ->
  In a status_letters -> In b status_letters ->
  (a = letter "M" \/ b = letter "M" ->
   _parse_patch_header_line (raw_line pre [a; b] score name new trail)
   = Ok (effective_name name new, MODIFY))
  /\ exists mode,
       classify_by_priority [a; b] = Some mode /\
       _parse_patch_header_line (raw_line pre [a; b] score name new trail)
       = Ok (effective_name name new, mode).
Proof.
  intros Hf Ha Hb.
  rewrite (header_line_classification _ _ _ _ _ trail Hf
             (status_letters_ok a b Ha Hb)).
  cbn in Ha, Hb.
  repeat (destruct Ha as [Ha|Ha]; [|try contradiction]);
    repeat (destruct Hb as [Hb|Hb]; [|try contradiction]);
    subst a b; (split; [intros [E|E]; first [reflexivity | discriminate E]
                       | eexists; split; reflexivity]).
Qed.

Lemma merge_status_priority_witness :
  _parse_patch_header_line
    (raw_line merge_prefix [letter "D"; letter "M"] [] (lit "desc.c") None 1)
  = Ok (lit "desc.c", MODIFY).
Proof.
  apply (merge_status_priority merge_prefix (letter "D") (letter "M") []
           (lit "desc.c") None 1).
  - repeat split; [constructor | discriminate].
  - cbn. tauto.
  - cbn. tauto.
  - right. reflexivity.
Defined.



(* ------------------------------------------------------------------ *)
(** ** Error classifier *)

Lemma outcome_bind {A B} (m : io A) (k : A -> io B) :
  outcome (io_bind m k)
  = match outcome m with
    | Ok a => outcome (k a)
    | Raise e => Raise e
    end.
Proof.
  unfold outcome, io_bind. destruct (snd m); reflexivity.
Qed.

Section ClassifierFacts.

Variable literal_eval : str -> result pyvalue.
Variable py_str : pyvalue -> str.
Variable detail_str : Detail -> str.
Variable format_filename : str -> str.
Variable pluralize : str -> nat -> str.

Let classify :=
  handle_scan_chunk_error literal_eval py_str detail_str format_filename pluralize.

(** The loop over the details ends normally when every true entry has a
    file at its index. *)
Lemma echo_details_returns chunk details : forall i,
  (forall j v, nth_error details j = Some v -> py_truthy v = true ->
               i + j < List.length chunk) ->
  outcome (echo_details py_str format_filename chunk i details) = Ok tt.
Proof.
  induction details as [|v details IH]; intros i H; [reflexivity|].
  cbn [echo_details]. rewrite outcome_bind.
  assert (Hstep : outcome
            (if py_truthy v
             then match nth_error chunk i with
                  | Some file =>
                      emit (Echo (lit "- " ++ format_filename (file_name file)
                                  ++ lit ": " ++ py_str v))
                  | None => io_raise index_error
                  end
             else io_ret tt) = Ok tt).
  { destruct (py_truthy v) eqn:Hv; [|reflexivity].
    specialize (H 0 v eq_refl Hv). rewrite Nat.add_0_r in H.
    apply nth_error_Some in H.
    destruct (nth_error chunk i); [reflexivity | congruence]. }
  unfold index_error in Hstep. rewrite Hstep.
  apply IH.
  intros j w Hj Hw. specialize (H (S j) w Hj Hw). lia.
Qed.

(** It raises [IndexError] when some true entry lies beyond the batch. *)
Lemma echo_details_raises chunk details : forall i j v,
  nth_error details j = Some v -> py_truthy v = true ->
  List.length chunk <= i + j ->
  outcome (echo_details py_str format_filename chunk i details)
  = Raise index_error.
Proof.
  induction details as [|w details IH]; intros i j v Hj Hv Hlen.
  - destruct j; discriminate.
  - cbn [echo_details]. rewrite outcome_bind.
    destruct (py_truthy w) eqn:Hw.
    + destruct (nth_error chunk i) as [file|] eqn:Hi.
      * cbn [outcome emit snd]. destruct j as [|j].
        -- apply nth_error_None in Hlen.
           rewrite Nat.add_0_r in Hlen. congruence.
        -- apply (IH (S i) j v Hj Hv). lia.
      * reflexivity.
    + cbn [outcome io_ret snd]. destruct j as [|j].
      * injection Hj as ->. congruence.
      * apply (IH (S i) j v Hj Hv). lia.
Qed.

Lemma classify_unauthorized d chunk :
  status_code d = Some 401%Z ->
  outcome (classify d chunk) = Raise (Exn UsageError (detail d)).
Proof.
  intro H. unfold classify, handle_scan_chunk_error.
  rewrite outcome_bind. cbn [outcome emit snd]. rewrite H. reflexivity.
Qed.

Lemma classify_no_status d chunk :
  status_code d = None ->
  outcome (classify d chunk)
  = Raise (Exn ClickException
             (lit "Error scanning, network error occurred: " ++ detail d)).
Proof.
  intro H. unfold classify, handle_scan_chunk_error.
  rewrite outcome_bind. cbn [outcome emit snd]. rewrite H. reflexivity.
Qed.

Lemma classify_other_status d chunk code :
  status_code d = Some code -> code <> 401%Z ->
  outcome (classify d chunk)
  = match literal_eval (detail d) with
    | Ok (PyList (v :: details)) =>
        outcome (echo_details py_str format_filename chunk 0 (v :: details))
    | _ => Ok tt
    end.
Proof.
  intros H Hc. unfold classify, handle_scan_chunk_error.
  rewrite outcome_bind. cbn [outcome emit snd]. rewrite H.
  cbn [status_is]. apply Z.eqb_neq in Hc. rewrite Hc.
  rewrite outcome_bind. cbn [outcome emit snd].
  destruct (literal_eval (detail d)) as [v|e].
  - destruct v; try reflexivity.
    destruct l; [reflexivity|].
    rewrite outcome_bind. reflexivity.
  - reflexivity.
Qed.

End ClassifierFacts.

(** The classifier returns normally on every status other than 401 and
    absent, as long as every true entry of a parsed list has a file at its
    index in the batch. *)
Lemma handle_scan_chunk_error_returns
  literal_eval py_str detail_str format_filename pluralize d chunk code :
  status_code d = Some code -> code <> 401%Z ->
  (forall details j v,
     literal_eval (detail d) = Ok (PyList details) ->
     nth_error details j = Some v -> py_truthy v = true ->
     j < List.length chunk) ->
  outcome (handle_scan_chunk_error literal_eval py_str detail_str
             format_filename pluralize d chunk) = Ok tt.
Proof.
  intros Hs Hc Hin.
  rewrite (classify_other_status _ _ _ _ _ _ _ code Hs Hc).
  destruct (literal_eval (detail d)) as [v|e]; [|reflexivity].
  destruct v; try reflexivity.
  destruct l as [|v details]; [reflexivity|].
  apply echo_details_returns.
  intros j w Hj Hw. apply (Hin (v :: details) j w eq_refl Hj Hw).
Qed.

(** C5, the defect: with a status other than 401 and absent, a detail text
    that parses as a list with a true entry at an index beyond the batch
    makes [handle_scan_chunk_error] raise [IndexError] on [chunk[i]]. *)
Theorem handle_scan_chunk_error_index_error
  literal_eval py_str detail_str format_filename pluralize
  d chunk code details j v :
  status_code d = Some code -> code <> 401%Z ->
  literal_eval (detail d) = Ok (PyList details) ->
  nth_error details j = Some v -> py_truthy v = true ->
  List.length chunk <= j ->
  outcome (handle_scan_chunk_error literal_eval py_str detail_str
             format_filename pluralize d chunk) = Raise index_error.
Proof.
  intros Hs Hc Hl Hj Hv Hlen.
  rewrite (classify_other_status _ _ _ _ _ _ _ code Hs Hc), Hl.
  destruct details as [|w details]; [destruct j; discriminate|].
  apply (echo_details_raises _ _ _ _ 0 j v Hj Hv Hlen).
Qed.

Lemma handle_scan_chunk_error_index_error_witness :
  outcome (handle_scan_chunk_error literal_eval_sample (fun _ => [])
             (fun d => detail d) (fun s => s) (fun s _ => s)
             sample_detail [sample_file "a.txt"])
  = Raise index_error.
Proof.
  apply (handle_scan_chunk_error_index_error literal_eval_sample _ _ _ _
           sample_detail [sample_file "a.txt"] 400%Z
           [PyStr (lit "too large"); PyStr (lit "too large")] 1
           (PyStr (lit "too large"))).
  - reflexivity.
  - discriminate.
  - reflexivity.
  - reflexivity.
  - reflexivity.
  - simpl. lia.
Defined.

(* ------------------------------------------------------------------ *)
(** ** Scan dispatcher *)

Section DispatcherFacts.

Variable literal_eval : str -> result pyvalue.
Variable py_str : pyvalue -> str.
Variable detail_str : Detail -> str.
Variable format_filename : str -> str.
Variable pluralize : str -> nat -> str.
Variable remove_ignored_from_result : ScanResult -> ScanResult.
Variable remove_results_from_ignore_detectors : ScanResult -> ScanResult.
Variable MULTI_DOCUMENT_LIMIT : Z.
Variable multi_content_scan : nat -> list (str * str) -> future.
Variable as_completed : list (future * list File) -> list (future * list File).

Let collect_one :=
  collect_future literal_eval py_str detail_str format_filename pluralize
    remove_ignored_from_result remove_results_from_ignore_detectors.
Let collect_all :=
  collect_loop literal_eval py_str detail_str format_filename pluralize
    remove_ignored_from_result remove_results_from_ignore_detectors.

Lemma start_scans_loop_returns files : forall chunk skipped futures,
  exists futures',
    outcome (start_scans_loop MULTI_DOCUMENT_LIMIT multi_content_scan
               files chunk skipped futures) = Ok futures'.
Proof.
  induction files as [|file files IH]; intros chunk skipped futures.
  - cbn [start_scans_loop]. destruct chunk; eexists; reflexivity.
  - cbn [start_scans_loop]. destruct (document file).
    + apply IH.
    + destruct (Z.of_nat (List.length (chunk ++ [file])) =? MULTI_DOCUMENT_LIMIT)%Z.
      * rewrite !outcome_bind. cbn [outcome emit snd]. apply IH.
      * apply IH.
Qed.

Lemma cache_adds_return (file : File) (l : list PolicyBreak) :
  outcome (fold_right
             (fun policy_break rest =>
                emit (CacheAddFoundPolicyBreak policy_break (file_name file)) ;;; rest)
             (io_ret tt) l) = Ok tt.
Proof.
  induction l as [|pb l IH]; [reflexivity|].
  cbn [fold_right]. rewrite outcome_bind. exact IH.
Qed.

Lemma collect_scanned_returns pairs : forall results,
  exists results',
    outcome (collect_scanned remove_ignored_from_result
               remove_results_from_ignore_detectors pairs results)
    = Ok results'.
Proof.
  induction pairs as [|[file scanned] pairs IH]; intro results.
  - eexists; reflexivity.
  - cbn [collect_scanned].
    destruct (has_policy_breaks _).
    + rewrite outcome_bind, cache_adds_return. apply IH.
    + apply IH.
Qed.

Lemma collect_future_succeeded fc acc :
  succeeded fc ->
  exists results', outcome (collect_one fc acc) = Ok (results', snd acc).
Proof.
  destruct fc as [fut chunk], acc as [results errors].
  intros [m [Hf Hm]]. cbn [fst] in Hf. subst fut.
  unfold collect_one, collect_future. cbn [success]. rewrite Hm.
  cbn [status_is Z.eqb Pos.eqb negb].
  rewrite outcome_bind.
  destruct (collect_scanned_returns (combine chunk (scan_results m)) results)
    as [results' E].
  rewrite E. exists results'. reflexivity.
Qed.

Lemma collect_future_raised exc chunk acc :
  outcome (collect_one (Raised exc, chunk) acc) = Raise (network_error exc).
Proof.
  destruct acc as [results errors].
  unfold collect_one, collect_future. cbn [success status_code status_is negb].
  rewrite outcome_bind.
  unfold handle_scan_chunk_error. rewrite outcome_bind. reflexivity.
Qed.

Lemma collect_loop_raised l1 : forall exc chunk l2 acc,
  Forall succeeded l1 ->
  outcome (collect_all (l1 ++ (Raised exc, chunk) :: l2) acc)
  = Raise (network_error exc).
Proof.
  induction l1 as [|fc l1 IH]; intros exc chunk l2 acc Hall.
  - cbn [app]. unfold collect_all. cbn [collect_loop].
    rewrite outcome_bind. fold collect_one.
    rewrite collect_future_raised. reflexivity.
  - inversion Hall as [|? ? Hfc Hl1]; subst.
    cbn [app]. unfold collect_all. cbn [collect_loop].
    rewrite outcome_bind. fold collect_one.
    destruct (collect_future_succeeded fc acc Hfc) as [results' E].
    rewrite E. apply IH, Hl1.
Qed.

End DispatcherFacts.

Lemma completed_shape futs completed exc chunk l1 l2 :
  Permutation futs completed ->
  futs = l1 ++ (Raised exc, chunk) :: l2 ->
  Forall succeeded (l1 ++ l2) ->
  exists c1 c2,
    completed = c1 ++ (Raised exc, chunk) :: c2 /\ Forall succeeded c1.
Proof.
  intros Hp -> Hall.
  assert (Hin : In (Raised exc, chunk) completed).
  { eapply Permutation_in; [exact Hp|]. apply in_elt. }
  destruct (in_split _ _ Hin) as [c1 [c2 E]]. subst completed.
  exists c1, c2. split; [reflexivity|].
  apply Permutation_app_inv in Hp.
  assert (H : Forall succeeded (c1 ++ c2))
    by (eapply Permutation_Forall; eassumption).
  apply Forall_app in H. tauto.
Qed.

(** C4 as stated fails: when the only batch raises a transport exception,
    [scan] returns no [Results] at all; it raises the network error. *)
Lemma scan_transport_error_returns_nothing :
  outcome failing_scan = Raise (network_error connection_error) /\
  ~ exists r,
      outcome failing_scan = Ok r /\
      results r = [] /\
      errors r = [{| files := [(lit "a.txt", FILE)];
                     description := exn_str connection_error |}].
Proof.
  split; [reflexivity|].
  intros [r [H _]]. vm_compute in H. discriminate H.
Qed.

(** C4, amended: when exactly one batch's submission raises a transport
    exception and every other batch succeeds, whatever the completion
    order, [scan] does not return: the outcome synthesized for the failed
    batch has no status code, so the error classifier raises the
    [ClickException] "Error scanning, network error occurred: " followed by
    the exception's text. *)
Theorem scan_transport_error_is_fatal
  literal_eval py_str detail_str format_filename pluralize
  remove_ignored_from_result remove_results_from_ignore_detectors
  MULTI_DOCUMENT_LIMIT multi_content_scan as_completed
  files futs l1 l2 exc chunk :
  (forall l, Permutation l (as_completed l)) ->
  outcome (_start_scans MULTI_DOCUMENT_LIMIT multi_content_scan files) = Ok futs ->
  futs = l1 ++ (Raised exc, chunk) :: l2 ->
  Forall succeeded (l1 ++ l2) ->
  outcome (scan_files literal_eval py_str detail_str format_filename pluralize
             remove_ignored_from_result remove_results_from_ignore_detectors
             MULTI_DOCUMENT_LIMIT multi_content_scan as_completed files)
  = Raise (network_error exc).
Proof.
  intros Hperm Hstart Hfuts Hall.
  unfold scan_files. rewrite outcome_bind, Hstart.
  unfold _collect_results. rewrite outcome_bind. cbn [outcome emit snd].
  rewrite outcome_bind.
  destruct (completed_shape futs (as_completed futs) exc chunk l1 l2
              (Hperm futs) Hfuts Hall) as [c1 [c2 [E Hc1]]].
  rewrite E.
  rewrite (collect_loop_raised literal_eval py_str detail_str format_filename
             pluralize remove_ignored_from_result
             remove_results_from_ignore_detectors c1 exc chunk c2 ([], []) Hc1).
  reflexivity.
Qed.

Lemma scan_transport_error_is_fatal_witness :
  outcome failing_scan = Raise (network_error connection_error).
Proof.
  apply (scan_transport_error_is_fatal _ _ _ _ _ _ _ _ _ _ _
           [(Raised connection_error, [sample_file "a.txt"])] [] []
           connection_error [sample_file "a.txt"]).
  - intro l. apply Permutation_refl.
  - reflexivity.
  - reflexivity.
  - constructor.
Defined.

(* ------------------------------------------------------------------ *)
(** ** Commit accessors *)

Section CommitFacts.

Variable is_filepath_excluded : str -> bool.
Variable DOCUMENT_SIZE_THRESHOLD_BYTES : Z.
Variable GIT_PATH : str.
Variable shell : list str -> result str.
Variable header_info_search : str -> option CommitInformation.

(** The git invocation succeeds and prints [the_patch], which parses
    without error into [the_files]. *)
Variable the_patch : str.
Variable the_files : list File.
Hypothesis shell_returns : forall argv, shell argv = Ok the_patch.
Hypothesis parse_returns :
  gen_list (_parse_patch is_filepath_excluded DOCUMENT_SIZE_THRESHOLD_BYTES
              the_patch) = Ok the_files.

Let rd := do_read is_filepath_excluded DOCUMENT_SIZE_THRESHOLD_BYTES GIT_PATH
            shell header_info_search.
Let rds := do_reads is_filepath_excluded DOCUMENT_SIZE_THRESHOLD_BYTES GIT_PATH
             shell header_info_search.

Ltac run_read :=
  repeat (cbv beta iota zeta delta
            [rd do_read patch info Commit_files get_files m_bind m_get m_ret
             m_put m_emit m_raise m_rewrap trace_of state_of fst snd app
             _patch _files _info sha];
          rewrite ?shell_returns, ?parse_returns).

Lemma read_step c r :
  reachable the_patch the_files c ->
  reachable the_patch the_files (state_of (rd r c)) /\
  _patch (state_of (rd r c)) = Some the_patch /\
  git_invocations (trace_of (rd r c))
  = match _patch c with None => 1 | Some _ => 0 end /\
  parse_realizations (trace_of (rd r c))
  = (if is_read_files r
     then match _files c with [] => 1 | _ => 0 end
     else 0) /\
  _files (state_of (rd r c))
  = (if is_read_files r
     then match _files c with [] => the_files | l => l end
     else _files c).
Proof.
  destruct c as [s pa fi inf]. unfold reachable. cbn [_patch _files _info].
  intro H.
  destruct pa as [p|].
  - destruct H as [-> Hf].
    destruct r; destruct inf; destruct fi as [|f fi]; run_read;
      cbn; repeat split; auto.
  - destruct H as [-> ->].
    destruct r; run_read; cbn; repeat split; auto.
Qed.

Lemma reads_cons r rs c :
  fst (rds (r :: rs) c)
  = trace_of (rd r c) ++ fst (rds rs (state_of (rd r c))).
Proof.
  unfold rds, rd, trace_of, state_of. cbn [do_reads].
  destruct (do_read _ _ _ _ _ r c) as [[tr c'] res]. cbn [fst snd].
  destruct (do_reads _ _ _ _ _ rs c'). reflexivity.
Qed.

Lemma git_invocations_app a b :
  git_invocations (a ++ b) = git_invocations a + git_invocations b.
Proof. unfold git_invocations. rewrite filter_app, length_app. reflexivity. Qed.

Lemma parse_realizations_app a b :
  parse_realizations (a ++ b) = parse_realizations a + parse_realizations b.
Proof. unfold parse_realizations. rewrite filter_app, length_app. reflexivity. Qed.

(** Once the patch is cached no read invokes git. *)
Lemma git_not_invoked_again rs : forall c,
  reachable the_patch the_files c -> _patch c = Some the_patch ->
  git_invocations (fst (rds rs c)) = 0.
Proof.
  induction rs as [|r rs IH]; intros c Hc Hp; [reflexivity|].
  rewrite reads_cons, git_invocations_app.
  destruct (read_step c r Hc) as (Hc' & Hp' & Hg & _).
  rewrite Hg, Hp, (IH _ Hc' Hp'). reflexivity.
Qed.

(** The first read of a fresh instance invokes git, no later one does. *)
Lemma git_invoked_once rs c :
  reachable the_patch the_files c -> _patch c = None -> rs <> [] ->
  git_invocations (fst (rds rs c)) = 1.
Proof.
  intros Hc Hp Hne. destruct rs as [|r rs]; [congruence|].
  rewrite reads_cons, git_invocations_app.
  destruct (read_step c r Hc) as (Hc' & Hp' & Hg & _).
  rewrite Hg, Hp, (git_not_invoked_again rs _ Hc' Hp'). reflexivity.
Qed.

(** With a non-empty cached list no read parses. *)
Lemma parse_not_realized_again rs : forall c,
  reachable the_patch the_files c -> _files c <> [] ->
  parse_realizations (fst (rds rs c)) = 0.
Proof.
  induction rs as [|r rs IH]; intros c Hc Hf; [reflexivity|].
  rewrite reads_cons, parse_realizations_app.
  destruct (read_step c r Hc) as (Hc' & _ & _ & Hn & Hf').
  rewrite Hn, IH; [| exact Hc' |].
  - destruct (is_read_files r), (_files c) eqn:E;
      first [reflexivity | congruence].
  - rewrite Hf'. destruct (is_read_files r), (_files c) eqn:E; congruence.
Qed.

(** A patch that parses to a non-empty list is parsed by the first read of
    [files] and never again. *)
Lemma parse_realized_once rs : forall c,
  the_files <> [] -> reachable the_patch the_files c -> _files c = [] ->
  parse_realizations (fst (rds rs c))
  = if existsb is_read_files rs then 1 else 0.
Proof.
  intro c. intro Hne. revert c.
  induction rs as [|r rs IH]; intros c Hc Hf; [reflexivity|].
  rewrite reads_cons, parse_realizations_app.
  destruct (read_step c r Hc) as (Hc' & _ & _ & Hn & Hf').
  rewrite Hn. rewrite Hf in *. cbn [existsb].
  destruct (is_read_files r); cbn [orb].
  - rewrite parse_not_realized_again; [reflexivity | exact Hc' | congruence].
  - rewrite (IH _ Hc' Hf'). reflexivity.
Qed.

(** A patch that parses to the empty list is parsed again by every read
    of [files]. *)
Lemma parse_realized_each_time rs : forall c,
  the_files = [] -> reachable the_patch the_files c -> _files c = [] ->
  parse_realizations (fst (rds rs c)) = files_reads rs.
Proof.
  intro c. intro He. revert c.
  induction rs as [|r rs IH]; intros c Hc Hf; [reflexivity|].
  rewrite reads_cons, parse_realizations_app.
  destruct (read_step c r Hc) as (Hc' & _ & _ & Hn & Hf').
  rewrite Hn, Hf in *.
  assert (Hf'' : _files (state_of (rd r c)) = [])
    by (rewrite Hf'; destruct (is_read_files r); congruence).
  rewrite (IH _ Hc' Hf''). unfold files_reads. cbn [filter].
  destruct (is_read_files r); reflexivity.
Qed.

End CommitFacts.


Example files_unknown_status :
  snd (Commit_files (fun _ => false) 1048576 (lit "git")
         (fun _ => Ok unknown_status_patch) (Commit_init (Some (lit "9537b6f"))))
  = Raise (Exn PatchParseError
             (lit "Could not parse patch (sha: 9537b6f): Can't parse header line "
              ++ patch_lit ":100644 100644 bcd1234 0123456 X|file0|"
              ++ lit ": unknown status X")).
Proof. vm_compute. reflexivity. Qed.

Lemma Commit_init_reachable the_patch the_files sha0 :
  reachable the_patch the_files (Commit_init sha0).
Proof. split; reflexivity. Qed.

(** X16: with a patch that parses to a non-empty list the accessors are
    memoized: one git invocation, and one parse exactly when [files] is
    read at all. *)
Lemma commit_reads_memoized
  is_filepath_excluded DOCUMENT_SIZE_THRESHOLD_BYTES GIT_PATH shell
  header_info_search the_patch the_files sha0 rs :
  (forall argv, shell argv = Ok the_patch) ->
  gen_list (_parse_patch is_filepath_excluded DOCUMENT_SIZE_THRESHOLD_BYTES
              the_patch) = Ok the_files ->
  the_files <> [] -> rs <> [] ->
  git_invocations
    (fst (do_reads is_filepath_excluded DOCUMENT_SIZE_THRESHOLD_BYTES GIT_PATH
            shell header_info_search rs (Commit_init sha0))) = 1
  /\ parse_realizations
       (fst (do_reads is_filepath_excluded DOCUMENT_SIZE_THRESHOLD_BYTES
               GIT_PATH shell header_info_search rs (Commit_init sha0)))
     = if existsb is_read_files rs then 1 else 0.
Proof.
  intros Hshell Hparse Hne Hrs. split.
  - apply (git_invoked_once _ _ _ _ _ the_patch the_files Hshell Hparse);
      [apply Commit_init_reachable | reflexivity | exact Hrs].
  - apply (parse_realized_once _ _ _ _ _ the_patch the_files Hshell Hparse);
      [exact Hne | apply Commit_init_reachable | reflexivity].
Qed.

(** C8, the defect: when the patch parses to an empty file list, git is
    still invoked once, but every read of [files] finds [_files] empty and
    realizes the parse again: the parse runs as many times as [files] is
    read. *)
Theorem files_parsed_again_when_empty
  is_filepath_excluded DOCUMENT_SIZE_THRESHOLD_BYTES GIT_PATH shell
  header_info_search the_patch sha0 rs :
  (forall argv, shell argv = Ok the_patch) ->
  gen_list (_parse_patch is_filepath_excluded DOCUMENT_SIZE_THRESHOLD_BYTES
              the_patch) = Ok [] ->
  rs <> [] ->
  git_invocations
    (fst (do_reads is_filepath_excluded DOCUMENT_SIZE_THRESHOLD_BYTES GIT_PATH
            shell header_info_search rs (Commit_init sha0))) = 1
  /\ parse_realizations
       (fst (do_reads is_filepath_excluded DOCUMENT_SIZE_THRESHOLD_BYTES
               GIT_PATH shell header_info_search rs (Commit_init sha0)))
     = files_reads rs.
Proof.
  intros Hshell Hparse Hrs. split.
  - apply (git_invoked_once _ _ _ _ _ the_patch [] Hshell Hparse);
      [apply Commit_init_reachable | reflexivity | exact Hrs].
  - apply (parse_realized_each_time _ _ _ _ _ the_patch [] Hshell Hparse);
      [reflexivity | apply Commit_init_reachable | reflexivity].
Qed.

Lemma files_parsed_again_when_empty_witness :
  git_invocations
    (fst (do_reads (fun _ => false) 1048576 (lit "git")
            (fun _ => Ok empty_commit_patch) (fun _ => None)
            [ReadFiles; ReadFiles] (Commit_init (Some (lit "9537b6f"))))) = 1
  /\ parse_realizations
       (fst (do_reads (fun _ => false) 1048576 (lit "git")
               (fun _ => Ok empty_commit_patch) (fun _ => None)
               [ReadFiles; ReadFiles] (Commit_init (Some (lit "9537b6f"))))) = 2.
Proof.
  apply (files_parsed_again_when_empty (fun _ => false) 1048576%Z (lit "git")
           (fun _ => Ok empty_commit_patch) (fun _ => None) empty_commit_patch
           (Some (lit "9537b6f")) [ReadFiles; ReadFiles]).
  - reflexivity.
  - reflexivity.
  - discriminate.
Defined.

(* ------------------------------------------------------------------ *)
(** ** Patch body splitter *)



Example utf8_len_lone_surrogate :
  utf8_len (lit "+n" ++ [56448%N; LF])
  = Raise (Exn UnicodeEncodeError
             (lit "'utf-8' codec can't encode character '\udc80' in position 2: surrogates not allowed")).
Proof. vm_compute. reflexivity. Qed.

Example utf8_len_surrogate_run :
  utf8_len (lit "+n" ++ [56448%N; 55296%N; LF])
  = Raise (Exn UnicodeEncodeError
             (lit "'utf-8' codec can't encode characters in position 2-3: surrogates not allowed")).
Proof. vm_compute. reflexivity. Qed.

Example utf8_len_mixed_widths :
  utf8_len (lit "ab" ++ [233%N; 8364%N; 128512%N]) = Ok 11%Z.
Proof. vm_compute. reflexivity. Qed.



Section SplitterFacts.

Variable is_filepath_excluded : str -> bool.
Variable DOCUMENT_SIZE_THRESHOLD_BYTES : Z.

Let body := parse_patch_file is_filepath_excluded DOCUMENT_SIZE_THRESHOLD_BYTES.




End SplitterFacts.




(* ------------------------------------------------------------------ *)
(** ** The size limit *)

Local Open Scope Z_scope.







(** With pygitguardian's threshold of 1 MiB the limit is 943718.4: a
    document of 943718 bytes passes the test, one of 943719 bytes does
    not. *)
Example size_limit_one_mebibyte :
  int_gt_float 943718 (float_mul (float_of_int 1048576) float_0_90) = false /\
  int_gt_float 943719 (float_mul (float_of_int 1048576) float_0_90) = true.
Proof. split; reflexivity. Qed.

Local Close Scope Z_scope.

(* ================================================================== *)
(** * Further properties *)

Lemma trace_bind {A B} (m : io A) (k : A -> io B) :
  trace (io_bind m k)
  = trace m ++ match outcome m with
               | Ok a => trace (k a)
               | Raise _ => []
               end.
Proof.
  unfold trace, outcome, io_bind. destruct (snd m); cbn [fst];
    [reflexivity | rewrite app_nil_r; reflexivity].
Qed.

Lemma submitted_cons ev tr : submitted (ev :: tr) = submitted_of ev ++ submitted tr.
Proof. reflexivity. Qed.

Lemma progress_total_cons ev tr :
  progress_total (ev :: tr) = progress_of ev + progress_total tr.
Proof. reflexivity. Qed.

Section StartScansFacts.

Variable MULTI_DOCUMENT_LIMIT : Z.
Variable multi_content_scan : nat -> list (str * str) -> future.

Let loop := start_scans_loop MULTI_DOCUMENT_LIMIT multi_content_scan.

Lemma start_scans_loop_cons file files chunk skipped futures :
  loop (file :: files) chunk skipped futures
  = match document file with
    | _ :: _ =>
        if (Z.of_nat (List.length (chunk ++ [file])) =? MULTI_DOCUMENT_LIMIT)%Z
        then
          emit (Submit (chunk ++ [file])) ;;;
          emit (Progress (List.length (chunk ++ [file]))) ;;;
          loop files [] skipped
            (futures ++ [(_scan_chunk multi_content_scan (List.length futures)
                            (chunk ++ [file]), chunk ++ [file])])
        else loop files (chunk ++ [file]) skipped futures
    | [] => loop files chunk (skipped ++ [file]) futures
    end.
Proof. reflexivity. Qed.

(** What the loop adds to the dictionary. *)
Lemma start_scans_loop_chunks files : forall chunk skipped futures,
  exists new,
    outcome (loop files chunk skipped futures) = Ok (futures ++ new) /\
    List.concat (map snd new) = chunk ++ filter nonempty_doc files /\
    submitted (trace (loop files chunk skipped futures)) = map snd new /\
    (forall i fc, nth_error new i = Some fc ->
       fst fc = _scan_chunk multi_content_scan (List.length futures + i) (snd fc)).
Proof.
  induction files as [|file files IH]; intros chunk skipped futures.
  - unfold loop. cbn [start_scans_loop]. destruct chunk as [|f chunk].
    + exists []. rewrite app_nil_r. repeat split; try reflexivity.
      intros i fc H. destruct i; discriminate.
    + eexists [_]. repeat split; try reflexivity.
      intros i fc H. destruct i as [|[|i]]; try discriminate.
      injection H as <-. cbn. rewrite Nat.add_0_r. reflexivity.
  - rewrite start_scans_loop_cons. unfold nonempty_doc at 1. cbn [filter].
    fold (nonempty_doc file). unfold nonempty_doc at 1.
    destruct (document file) as [|c d] eqn:Ed.
    + destruct (IH chunk (skipped ++ [file]) futures) as [new H].
      exists new. exact H.
    + destruct (Z.of_nat (List.length (chunk ++ [file])) =? MULTI_DOCUMENT_LIMIT)%Z.
      * destruct (IH [] skipped
                    (futures ++ [(_scan_chunk multi_content_scan
                                    (List.length futures) (chunk ++ [file]),
                                  chunk ++ [file])]))
          as [new (Ho & Hc & Hs & Hi)].
        eexists (_ :: new). rewrite !outcome_bind, !trace_bind.
        cbn [outcome emit snd trace fst app]. fold (trace (loop files [] skipped
           (futures ++ [(_scan_chunk multi_content_scan
                                    (List.length futures) (chunk ++ [file]),
                                  chunk ++ [file])]))).
        rewrite Ho, <- app_assoc. repeat split; try reflexivity.
        -- cbn [map snd List.concat]. rewrite Hc. cbn [app].
           rewrite <- app_assoc. reflexivity.
        -- rewrite !submitted_cons. cbn [submitted_of app]. rewrite Hs. reflexivity.
        -- intros i fc H. destruct i as [|i].
           ++ injection H as <-. cbn. rewrite Nat.add_0_r. reflexivity.
           ++ cbn [nth_error] in H. rewrite (Hi i fc H).
              rewrite length_app. cbn. f_equal. lia.
      * destruct (IH (chunk ++ [file]) skipped futures) as [new (Ho & Hc & Hs & Hi)].
        exists new. repeat split; try assumption.
        rewrite Hc, <- app_assoc. reflexivity.
Qed.

Lemma start_scans_loop_sizes files : forall chunk skipped futures,
  exists full last,
    outcome (loop files chunk skipped futures) = Ok (futures ++ full ++ last) /\
    Forall (fun fc => Z.of_nat (List.length (snd fc)) = MULTI_DOCUMENT_LIMIT) full /\
    (last = [] \/
     exists fc, last = [fc] /\ snd fc <> [] /\
       ((Z.of_nat (List.length chunk) < MULTI_DOCUMENT_LIMIT)%Z ->
        (Z.of_nat (List.length (snd fc)) < MULTI_DOCUMENT_LIMIT)%Z)).
Proof.
  induction files as [|file files IH]; intros chunk skipped futures.
  - unfold loop. cbn [start_scans_loop]. destruct chunk as [|f chunk].
    + exists [], []. cbn [app]. rewrite app_nil_r.
      repeat split; [constructor | left; reflexivity].
    + exists [], [(_scan_chunk multi_content_scan (List.length futures) (f :: chunk),
                  f :: chunk)].
      repeat split; [constructor|]. right. eexists. split; [reflexivity|].
      split; [discriminate | intro H; exact H].
  - rewrite start_scans_loop_cons. destruct (document file) as [|c d].
    + apply IH.
    + destruct (Z.of_nat (List.length (chunk ++ [file])) =? MULTI_DOCUMENT_LIMIT)%Z
        eqn:E.
      * apply Z.eqb_eq in E.
        destruct (IH [] skipped
                    (futures ++ [(_scan_chunk multi_content_scan
                                    (List.length futures) (chunk ++ [file]),
                                  chunk ++ [file])]))
          as [full [last (Ho & Hf & Hl)]].
        eexists (_ :: full), last. rewrite !outcome_bind.
        cbn [outcome emit snd].
        fold (outcome (loop files [] skipped
           (futures ++ [(_scan_chunk multi_content_scan
                                    (List.length futures) (chunk ++ [file]),
                                  chunk ++ [file])]))).
        rewrite Ho, <- app_assoc. split; [reflexivity|]. split.
        -- constructor; [exact E | exact Hf].
        -- destruct Hl as [Hl | [fc (Hl & Hne & Hlt)]]; [left; exact Hl|].
           right. exists fc. repeat split; try assumption.
           intros _. apply Hlt. cbn. rewrite <- E, length_app. cbn. lia.
      * apply Z.eqb_neq in E.
        destruct (IH (chunk ++ [file]) skipped futures)
          as [full [last (Ho & Hf & Hl)]].
        exists full, last. repeat split; try assumption.
        destruct Hl as [Hl | [fc (Hl & Hne & Hlt)]]; [left; exact Hl|].
        right. exists fc. repeat split; try assumption.
        intro Hc. apply Hlt. rewrite length_app in *. cbn in *. lia.
Qed.

Lemma start_scans_loop_progress files : forall chunk skipped futures,
  progress_total (trace (loop files chunk skipped futures))
  = List.length chunk + List.length skipped + List.length files.
Proof.
  induction files as [|file files IH]; intros chunk skipped futures.
  - unfold loop. cbn [start_scans_loop]. destruct chunk as [|f chunk].
    + cbn. lia.
    + cbn. lia.
  - rewrite start_scans_loop_cons. destruct (document file) as [|c d].
    + rewrite IH, length_app. cbn. lia.
    + destruct (Z.of_nat (List.length (chunk ++ [file])) =? MULTI_DOCUMENT_LIMIT)%Z.
      * rewrite !trace_bind. cbn [outcome emit snd trace fst app].
        rewrite !progress_total_cons.
        fold (trace (loop files [] skipped
           (futures ++ [(_scan_chunk multi_content_scan
                                    (List.length futures) (chunk ++ [file]),
                                  chunk ++ [file])]))).
        rewrite IH, length_app. cbn. lia.
      * rewrite IH, length_app. cbn. lia.
Qed.

End StartScansFacts.

(** X1: whenever [_start_scans] returns, the batches it submitted, read
    in submission order, are exactly the files with a non-empty document,
    in their order: a file with an empty document is never submitted, no
    other file is lost or repeated.  The [n]-th future is the remote call
    on the [n]-th batch. *)
Theorem start_scans_partition MULTI_DOCUMENT_LIMIT multi_content_scan files futs :
  outcome (_start_scans MULTI_DOCUMENT_LIMIT multi_content_scan files) = Ok futs ->
  List.concat (map snd futs) = filter nonempty_doc files /\
  submitted (trace (_start_scans MULTI_DOCUMENT_LIMIT multi_content_scan files))
  = map snd futs /\
  forall i fc, nth_error futs i = Some fc ->
    fst fc = _scan_chunk multi_content_scan i (snd fc).
Proof.
  intro Ho.
  destruct (start_scans_loop_chunks MULTI_DOCUMENT_LIMIT multi_content_scan
              files [] [] []) as [new (Ho' & H)].
  unfold _start_scans in Ho. rewrite Ho' in Ho. injection Ho as <-.
  exact H.
Qed.

(** X2: with a limit of at least one document per request, every batch
    that [_start_scans] submits holds between one and [MULTI_DOCUMENT_LIMIT]
    files, and every batch but the last holds exactly
    [MULTI_DOCUMENT_LIMIT]. *)
Theorem start_scans_chunk_sizes MULTI_DOCUMENT_LIMIT multi_content_scan files futs :
  (1 <= MULTI_DOCUMENT_LIMIT)%Z ->
  outcome (_start_scans MULTI_DOCUMENT_LIMIT multi_content_scan files) = Ok futs ->
  Forall (fun fc => (1 <= Z.of_nat (List.length (snd fc)) <= MULTI_DOCUMENT_LIMIT)%Z)
         futs
  /\ forall i fc, nth_error futs i = Some fc -> S i < List.length futs ->
       Z.of_nat (List.length (snd fc)) = MULTI_DOCUMENT_LIMIT.
Proof.
  intros Hlim Ho.
  destruct (start_scans_loop_sizes MULTI_DOCUMENT_LIMIT multi_content_scan
              files [] [] []) as [full [last (Ho' & Hf & Hl)]].
  unfold _start_scans in Ho. rewrite Ho' in Ho. injection Ho as <-.
  cbn [app]. split.
  - apply Forall_app. split.
    + eapply Forall_impl; [|exact Hf]. cbn. intros fc H. lia.
    + destruct Hl as [-> | [fc (-> & Hne & Hlt)]]; constructor; [|constructor].
      assert (H0 : (Z.of_nat (@List.length File []) < MULTI_DOCUMENT_LIMIT)%Z)
        by (cbn; lia).
      specialize (Hlt H0). destruct (snd fc); [congruence | cbn in *; lia].
  - intros i fc Hi Hlt.
    assert (Hin : i < List.length full).
    { rewrite length_app in Hlt.
      destruct Hl as [-> | [fc' (-> & _)]]; cbn in Hlt; lia. }
    rewrite nth_error_app1 in Hi by exact Hin.
    rewrite Forall_forall in Hf. apply Hf. eapply nth_error_In, Hi.
Qed.

(** X3: the advances passed to the progress callback by [_start_scans]
    add up to the number of files, submitted or skipped. *)
Theorem start_scans_progress MULTI_DOCUMENT_LIMIT multi_content_scan files :
  progress_total (trace (_start_scans MULTI_DOCUMENT_LIMIT multi_content_scan files))
  = List.length files.
Proof.
  unfold _start_scans.
  rewrite (start_scans_loop_progress MULTI_DOCUMENT_LIMIT multi_content_scan).
  reflexivity.
Qed.

Lemma io_bind_ok {A B} tr (a : A) (k : A -> io B) :
  io_bind (tr, Ok a) k = (tr ++ fst (k a), snd (k a)).
Proof. reflexivity. Qed.

Lemma io_eta {A} (m : io A) : m = (fst m, snd m).
Proof. destruct m; reflexivity. Qed.

Section CollectorFacts.

Variable literal_eval : str -> result pyvalue.
Variable py_str : pyvalue -> str.
Variable detail_str : Detail -> str.
Variable format_filename : str -> str.
Variable pluralize : str -> nat -> str.
Variable remove_ignored_from_result : ScanResult -> ScanResult.
Variable remove_results_from_ignore_detectors : ScanResult -> ScanResult.

Let collect_one :=
  collect_future literal_eval py_str detail_str format_filename pluralize
    remove_ignored_from_result remove_results_from_ignore_detectors.
Let collect_all :=
  collect_loop literal_eval py_str detail_str format_filename pluralize
    remove_ignored_from_result remove_results_from_ignore_detectors.
Let res_of :=
  batch_results remove_ignored_from_result remove_results_from_ignore_detectors.
Let adds_of :=
  batch_cache_adds remove_ignored_from_result remove_results_from_ignore_detectors.

Lemma cache_adds_run (file : File) (l : list PolicyBreak) :
  fold_right
    (fun policy_break rest =>
       emit (CacheAddFoundPolicyBreak policy_break (file_name file)) ;;; rest)
    (io_ret tt) l
  = (map (fun pb => CacheAddFoundPolicyBreak pb (file_name file)) l, Ok tt).
Proof.
  induction l as [|pb l IH]; [reflexivity|].
  cbn [fold_right map]. rewrite IH. reflexivity.
Qed.

Lemma collect_scanned_run pairs : forall results,
  collect_scanned remove_ignored_from_result
    remove_results_from_ignore_detectors pairs results
  = (adds_of pairs, Ok (results ++ res_of pairs)).
Proof.
  induction pairs as [|[file scanned] pairs IH]; intro results.
  - cbn. rewrite app_nil_r. reflexivity.
  - cbn [collect_scanned]. unfold adds_of, res_of, batch_results, batch_cache_adds.
    cbn [flat_map fst snd].
    destruct (has_policy_breaks _).
    + rewrite cache_adds_run, io_bind_ok, IH. cbn [fst snd].
      rewrite <- app_assoc. reflexivity.
    + rewrite IH. reflexivity.
Qed.

Lemma collect_future_succeeded_run fc results errors :
  succeeded fc ->
  collect_one fc (results, errors)
  = (adds_of (scanned_pairs fc), Ok (results ++ res_of (scanned_pairs fc), errors)).
Proof.
  destruct fc as [fut chunk]. intros [m [Hf Hm]]. cbn [fst] in Hf. subst fut.
  unfold collect_one, collect_future, scanned_pairs. cbn [success fst snd].
  rewrite Hm. cbn [status_is Z.eqb Pos.eqb negb].
  rewrite collect_scanned_run, io_bind_ok. cbn [fst snd io_ret].
  rewrite app_nil_r. reflexivity.
Qed.

Lemma collect_loop_succeeded_run completed : forall results errors,
  Forall succeeded completed ->
  collect_all completed (results, errors)
  = (flat_map (fun fc => adds_of (scanned_pairs fc)) completed,
     Ok (results ++ flat_map (fun fc => res_of (scanned_pairs fc)) completed,
         errors)).
Proof.
  induction completed as [|fc completed IH]; intros results errors Hall.
  - cbn. rewrite app_nil_r. reflexivity.
  - inversion Hall as [|? ? Hfc Hrest]; subst.
    unfold collect_all. cbn [collect_loop]. fold collect_one collect_all.
    rewrite (collect_future_succeeded_run fc results errors Hfc), io_bind_ok.
    rewrite (IH _ _ Hrest). cbn [fst snd flat_map].
    rewrite <- app_assoc. reflexivity.
Qed.

(** A turn of the loop that ends normally leaves the error list as it
    was. *)
Lemma collect_future_keeps_errors fc results errors results' errors' :
  outcome (collect_one fc (results, errors)) = Ok (results', errors') ->
  errors' = errors.
Proof.
  destruct fc as [fut chunk]. destruct fut as [exc | r].
  - unfold collect_one. rewrite collect_future_raised. discriminate.
  - unfold collect_one, collect_future.
    destruct (negb (success r)).
    + destruct r as [d|m]; [|discriminate].
      rewrite outcome_bind.
      destruct (outcome (handle_scan_chunk_error _ _ _ _ _ d chunk));
        [|discriminate].
      cbn. intro H. injection H as _ <-. reflexivity.
    + destruct r as [d|m]; [discriminate|].
      rewrite collect_scanned_run, io_bind_ok. cbn.
      intro H. injection H as _ <-. reflexivity.
Qed.

Lemma collect_loop_keeps_errors completed : forall results errors results' errors',
  outcome (collect_all completed (results, errors)) = Ok (results', errors') ->
  errors' = errors.
Proof.
  induction completed as [|fc completed IH]; intros results errors results' errors'.
  - cbn. intro H. injection H as _ <-. reflexivity.
  - unfold collect_all. cbn [collect_loop]. fold collect_one collect_all.
    rewrite outcome_bind.
    destruct (outcome (collect_one fc (results, errors))) as [[r1 e1]|e] eqn:E;
      [|discriminate].
    intro H. apply IH in H. apply collect_future_keeps_errors in E. congruence.
Qed.

End CollectorFacts.

Section CollectorFacts2.

Variable literal_eval : str -> result pyvalue.
Variable py_str : pyvalue -> str.
Variable detail_str : Detail -> str.
Variable format_filename : str -> str.
Variable pluralize : str -> nat -> str.
Variable remove_ignored_from_result : ScanResult -> ScanResult.
Variable remove_results_from_ignore_detectors : ScanResult -> ScanResult.

Let collect_one :=
  collect_future literal_eval py_str detail_str format_filename pluralize
    remove_ignored_from_result remove_results_from_ignore_detectors.
Let collect_all :=
  collect_loop literal_eval py_str detail_str format_filename pluralize
    remove_ignored_from_result remove_results_from_ignore_detectors.
Let res_of :=
  batch_results remove_ignored_from_result remove_results_from_ignore_detectors.

Lemma batch_results_origin pairs r :
  In r (res_of pairs) ->
  exists p, In p pairs /\ result_of_file r (fst p).
Proof.
  unfold res_of, batch_results. rewrite in_flat_map.
  intros [p [Hp Hr]]. exists p. split; [exact Hp|].
  cbn zeta in Hr.
  destruct (has_policy_breaks _) eqn:E; [|contradiction].
  destruct Hr as [<-|[]]. repeat split. exact E.
Qed.

Lemma collect_future_origin fc results errors results' errors' :
  outcome (collect_one fc (results, errors)) = Ok (results', errors') ->
  forall r, In r results' ->
    In r results \/ exists file, In file (snd fc) /\ result_of_file r file.
Proof.
  destruct fc as [fut chunk]. destruct fut as [exc | resp].
  - unfold collect_one. rewrite collect_future_raised. discriminate.
  - unfold collect_one, collect_future.
    destruct (negb (success resp)).
    + destruct resp as [d|m]; [|discriminate].
      rewrite outcome_bind.
      destruct (outcome (handle_scan_chunk_error _ _ _ _ _ d chunk));
        [|discriminate].
      cbn. intro H. injection H as <- _. intros r Hr. left. exact Hr.
    + destruct resp as [d|m]; [discriminate|].
      rewrite collect_scanned_run, io_bind_ok. cbn [outcome snd io_ret].
      intro H. injection H as <- _. intros r Hr.
      apply in_app_or in Hr. destruct Hr as [Hr|Hr]; [left; exact Hr|].
      right. apply batch_results_origin in Hr. destruct Hr as [p [Hp Hr]].
      exists (fst p). split; [|exact Hr].
      destruct p as [file scanned]. eapply in_combine_l, Hp.
Qed.

Lemma collect_loop_origin completed : forall results errors results' errors',
  outcome (collect_all completed (results, errors)) = Ok (results', errors') ->
  forall r, In r results' ->
    In r results \/
    exists fc file, In fc completed /\ In file (snd fc) /\ result_of_file r file.
Proof.
  induction completed as [|fc completed IH]; intros results errors results' errors'.
  - cbn. intro H. injection H as <- _. intros r Hr. left. exact Hr.
  - unfold collect_all. cbn [collect_loop]. fold collect_one collect_all.
    rewrite outcome_bind.
    destruct (outcome (collect_one fc (results, errors))) as [[r1 e1]|e] eqn:E;
      [|discriminate].
    intros H r Hr. destruct (IH _ _ _ _ H r Hr) as [Hr1 | [fc' [file (Hfc & Hf & Ho)]]].
    + destruct (collect_future_origin _ _ _ _ _ E r Hr1) as [Hr0 | [file [Hf Ho]]].
      * left. exact Hr0.
      * right. exists fc, file.
        split; [left; reflexivity | split; [exact Hf | exact Ho]].
    + right. exists fc', file.
      split; [right; exact Hfc | split; [exact Hf | exact Ho]].
Qed.

End CollectorFacts2.

Lemma collect_results_outcome
  literal_eval py_str detail_str format_filename pluralize
  remove_ignored_from_result remove_results_from_ignore_detectors
  as_completed futs :
  outcome (_collect_results literal_eval py_str detail_str format_filename
             pluralize remove_ignored_from_result
             remove_results_from_ignore_detectors as_completed futs)
  = match outcome (collect_loop literal_eval py_str detail_str format_filename
                     pluralize remove_ignored_from_result
                     remove_results_from_ignore_detectors
                     (as_completed futs) ([], [])) with
    | Ok acc => Ok {| results := fst acc; errors := snd acc |}
    | Raise e => Raise e
    end.
Proof.
  unfold _collect_results. rewrite outcome_bind. cbn [outcome emit snd].
  rewrite outcome_bind.
  destruct (outcome (collect_loop _ _ _ _ _ _ _ _ _)); reflexivity.
Qed.

(** X4: whenever [scan] returns, the error list of its [Results] is
    empty: an [Error] is only recorded for a batch whose submission
    raised, and that batch then makes the classifier raise. *)
Theorem scan_returns_no_errors
  literal_eval py_str detail_str format_filename pluralize
  remove_ignored_from_result remove_results_from_ignore_detectors
  MULTI_DOCUMENT_LIMIT multi_content_scan as_completed files r :
  outcome (scan_files literal_eval py_str detail_str format_filename pluralize
             remove_ignored_from_result remove_results_from_ignore_detectors
             MULTI_DOCUMENT_LIMIT multi_content_scan as_completed files) = Ok r ->
  errors r = [].
Proof.
  unfold scan_files. rewrite outcome_bind.
  destruct (outcome (_start_scans _ _ files)) as [futs|e]; [|discriminate].
  rewrite collect_results_outcome.
  destruct (outcome (collect_loop _ _ _ _ _ _ _ _ _)) as [[rs es]|e] eqn:E;
    [|discriminate].
  intro H. injection H as <-. cbn [errors snd].
  eapply collect_loop_keeps_errors, E.
Qed.

Lemma scan_returns_no_errors_witness :
  errors {| results :=
              [{| content := lit "password = 1234"; filemode := FILE;
                  filename := lit "a.txt"; scan := scan_with_break |}];
            errors := [] |} = [].
Proof.
  apply (scan_returns_no_errors literal_eval_sample (fun _ => []) (fun d => detail d)
           (fun s => s) (fun s _ => s) (fun r => r) (fun r => r) 20%Z
           remote_finds_a (fun l => l)
           [sample_file "a.txt"; sample_file "b.txt"]).
  reflexivity.
Defined.

(** X5: when every completed batch succeeded, [_collect_results] purges
    the cache, then for each batch in completion order and each of its
    files in batch order records the policy breaks that remain after the
    two filters, saves the cache, and returns one [Result] per file that
    still has a policy break, and no error. *)
Theorem collect_results_all_succeeded
  literal_eval py_str detail_str format_filename pluralize
  remove_ignored_from_result remove_results_from_ignore_detectors
  as_completed futs :
  Forall succeeded (as_completed futs) ->
  _collect_results literal_eval py_str detail_str format_filename pluralize
    remove_ignored_from_result remove_results_from_ignore_detectors
    as_completed futs
  = (CachePurge
       :: flat_map
            (fun fc => batch_cache_adds remove_ignored_from_result
                         remove_results_from_ignore_detectors (scanned_pairs fc))
            (as_completed futs)
       ++ [CacheSave],
     Ok {| results :=
             flat_map
               (fun fc => batch_results remove_ignored_from_result
                            remove_results_from_ignore_detectors (scanned_pairs fc))
               (as_completed futs);
           errors := [] |}).
Proof.
  intro Hall. unfold _collect_results.
  rewrite (collect_loop_succeeded_run literal_eval py_str detail_str
             format_filename pluralize remove_ignored_from_result
             remove_results_from_ignore_detectors (as_completed futs) [] [] Hall).
  reflexivity.
Qed.

Lemma collect_results_all_succeeded_witness :
  _collect_results literal_eval_sample (fun _ => []) (fun d => detail d)
    (fun s => s) (fun s _ => s) (fun r => r) (fun r => r) (fun l => l)
    passing_futures
  = ([CachePurge; CacheAddFoundPolicyBreak sample_break (lit "a.txt"); CacheSave],
     Ok {| results :=
             [{| content := lit "password = 1234"; filemode := FILE;
                 filename := lit "a.txt"; scan := scan_with_break |}];
           errors := [] |}).
Proof.
  rewrite collect_results_all_succeeded.
  - reflexivity.
  - repeat constructor. eexists. split; reflexivity.
Defined.

(** X6: every [Result] that [scan] returns stands for one of the files it
    was given: a file with a non-empty document, whose content, name and
    mode the [Result] carries, and whose filtered scan result still has a
    policy break. *)
Theorem scan_results_come_from_files
  literal_eval py_str detail_str format_filename pluralize
  remove_ignored_from_result remove_results_from_ignore_detectors
  MULTI_DOCUMENT_LIMIT multi_content_scan as_completed files r :
  (forall l, Permutation l (as_completed l)) ->
  outcome (scan_files literal_eval py_str detail_str format_filename pluralize
             remove_ignored_from_result remove_results_from_ignore_detectors
             MULTI_DOCUMENT_LIMIT multi_content_scan as_completed files) = Ok r ->
  forall x, In x (results r) ->
    exists file, In file files /\ document file <> [] /\ result_of_file x file.
Proof.
  intros Hperm. unfold scan_files. rewrite outcome_bind.
  destruct (start_scans_loop_chunks MULTI_DOCUMENT_LIMIT multi_content_scan
              files [] [] []) as [futs (Ho & Hc & _)].
  unfold _start_scans. rewrite Ho, collect_results_outcome.
  destruct (outcome (collect_loop _ _ _ _ _ _ _ _ _)) as [[rs es]|e] eqn:E;
    [|discriminate].
  intro H. injection H as <-. cbn [results fst]. intros x Hx.
  destruct (collect_loop_origin _ _ _ _ _ _ _ _ _ _ _ _ E x Hx)
    as [[] | [fc [file (Hfc & Hf & Hr)]]].
  assert (Hin : In file (List.concat (map snd futs))).
  { apply in_concat. exists (snd fc). split; [|exact Hf].
    apply in_map. eapply Permutation_in; [|exact Hfc].
    apply Permutation_sym, Hperm. }
  rewrite Hc in Hin. apply filter_In in Hin. destruct Hin as [Hin Hd].
  exists file. repeat split; try assumption; try apply Hr.
  unfold nonempty_doc in Hd. destruct (document file); [discriminate Hd | discriminate].
Qed.

Lemma skipn_nth_error {A} (l : list A) : forall i x,
  nth_error l i = Some x -> skipn i l = x :: skipn (S i) l.
Proof.
  induction l as [|a l IH]; intros [|i] x H; try discriminate.
  - injection H as ->. reflexivity.
  - cbn [nth_error] in H. cbn [skipn]. apply (IH i x H).
Qed.

Lemma echo_details_run py_str format_filename chunk details : forall i,
  i + List.length details <= List.length chunk ->
  echo_details py_str format_filename chunk i details
  = (flat_map (detail_line py_str format_filename)
       (combine (skipn i chunk) details), Ok tt).
Proof.
  induction details as [|v details IH]; intros i Hlen.
  - cbn. rewrite combine_nil. reflexivity.
  - cbn [List.length] in Hlen.
    destruct (nth_error chunk i) as [file|] eqn:Hi;
      [|apply nth_error_None in Hi; lia].
    rewrite (skipn_nth_error chunk i file Hi).
    cbn [echo_details combine flat_map]. rewrite Hi.
    rewrite (IH (S i)) by lia.
    unfold detail_line at 2. cbn [fst snd].
    destruct (py_truthy v); reflexivity.
Qed.

(** X8: on status 401 the classifier raises [UsageError] with the detail
    text, and without a status code it raises [ClickException] with the
    network error message; in both cases it has only logged, and has
    displayed nothing, whatever the batch and the text. *)
Theorem classifier_fatal_statuses
  literal_eval py_str detail_str format_filename pluralize text chunk :
  handle_scan_chunk_error literal_eval py_str detail_str format_filename pluralize
    {| detail := text; status_code := Some 401%Z |} chunk
  = ([LogError (Some 401%Z) text], Raise (Exn UsageError text))
  /\ handle_scan_chunk_error literal_eval py_str detail_str format_filename
       pluralize {| detail := text; status_code := None |} chunk
     = ([LogError None text],
        Raise (Exn ClickException
                 (lit "Error scanning, network error occurred: " ++ text))).
Proof. split; reflexivity. Qed.

(** X9: on any other status, when the detail text parses as a non-empty
    list no longer than the batch, the classifier displays the two
    headings and then one line per true entry, naming the file at the same
    index of the batch; false entries print nothing; it returns
    normally. *)
Theorem classifier_reports_each_entry
  literal_eval py_str detail_str format_filename pluralize
  d chunk code details :
  status_code d = Some code -> code <> 401%Z ->
  literal_eval (detail d) = Ok (PyList details) ->
  details <> [] ->
  List.length details <= List.length chunk ->
  handle_scan_chunk_error literal_eval py_str detail_str format_filename pluralize
    d chunk
  = ([LogError (Some code) (detail d);
      DisplayError (LF :: lit "Error scanning. Results may be incomplete.");
      DisplayError (lit "Add the following "
                    ++ pluralize (lit "file") (List.length details)
                    ++ lit " to your paths-ignore:")]
     ++ flat_map (detail_line py_str format_filename) (combine chunk details),
     Ok tt).
Proof.
  intros Hs Hc Hl Hne Hlen.
  unfold handle_scan_chunk_error. rewrite Hs.
  cbn [status_is]. apply Z.eqb_neq in Hc. rewrite Hc, Hl.
  destruct details as [|v details]; [congruence|].
  rewrite (echo_details_run py_str format_filename chunk (v :: details) 0)
    by (cbn in *; lia).
  reflexivity.
Qed.

(** X7: a batch answered with a [Detail] whose status is neither 200 nor
    401 (and whose parsed detail list, if any, stays within the batch)
    leaves the results and the errors collected so far unchanged, and the
    loop goes on: nothing of that batch is reported. *)
Theorem rejected_batch_adds_nothing
  literal_eval py_str detail_str format_filename pluralize
  remove_ignored_from_result remove_results_from_ignore_detectors
  d chunk code results errors :
  status_code d = Some code -> code <> 200%Z -> code <> 401%Z ->
  (forall details j v,
     literal_eval (detail d) = Ok (PyList details) ->
     nth_error details j = Some v -> py_truthy v = true ->
     j < List.length chunk) ->
  outcome (collect_future literal_eval py_str detail_str format_filename pluralize
             remove_ignored_from_result remove_results_from_ignore_detectors
             (Returned (RDetail d), chunk) (results, errors))
  = Ok (results, errors).
Proof.
  intros Hs H200 H401 Hin.
  unfold collect_future. cbn [success]. rewrite Hs. cbn [status_is].
  apply Z.eqb_neq in H200. rewrite H200. cbn [negb].
  rewrite outcome_bind.
  rewrite (classify_other_status literal_eval py_str detail_str format_filename
             pluralize d chunk code Hs H401).
  destruct (literal_eval (detail d)) as [v|e] eqn:E; [|reflexivity].
  destruct v; try reflexivity.
  destruct l as [|v details]; [reflexivity|].
  rewrite echo_details_returns; [reflexivity|].
  intros j w Hj Hw. apply (Hin (v :: details) j w eq_refl Hj Hw).
Qed.

Lemma find_starts sub s : forall i,
  find sub s = Some i -> starts_with sub (skipn i s) = true.
Proof.
  induction s as [|c s IH]; intros i H.
  - cbn [find] in H. destruct (starts_with sub []) eqn:E; [|discriminate].
    injection H as <-. exact E.
  - cbn [find] in H. destruct (starts_with sub (c :: s)) eqn:E.
    + injection H as <-. exact E.
    + destruct (find sub s) as [j|]; [|discriminate].
      injection H as <-. apply (IH j eq_refl).
Qed.

Lemma in_gen_app {A} (g h : gen A) x :
  In x (yielded (gen_app g h)) -> In x (yielded g) \/ In x (yielded h).
Proof.
  unfold gen_app. destruct (raised g); cbn [yielded]; intro H.
  - left. exact H.
  - apply in_app_or, H.
Qed.

Lemma in_gen_for {A B} (g : gen A) (body : A -> gen B) y :
  In y (yielded (gen_for g body)) ->
  exists a, In a (yielded g) /\ In y (yielded (body a)).
Proof.
  unfold gen_for.
  induction (yielded g) as [|a l IH]; cbn [fold_right].
  - intros [].
  - intro H. apply in_gen_app in H. destruct H as [H|H].
    + exists a. split; [left; reflexivity | exact H].
    + destruct (IH H) as [a' [Ha' Hy]]. exists a'. split; [right; exact Ha' | exact Hy].
Qed.

Lemma in_zip_lazy {A B} (pulls : list (result A)) : forall (l : list B) a b,
  In (a, b) (yielded (zip_lazy pulls l)) -> In (Ok a) pulls /\ In b l.
Proof.
  induction pulls as [|[a0|e] pulls IH]; intros l a b H.
  - destruct H.
  - cbn [zip_lazy] in H. destruct l as [|b0 l]; [destruct H|].
    cbn [gen_cons yielded] in H. destruct H as [H|H].
    + injection H as <- <-. split; left; reflexivity.
    + destruct (IH l a b H). split; right; assumption.
  - destruct H.
Qed.

Lemma header_line_mode line name mode :
  _parse_patch_header_line line = Ok (name, mode) -> mode <> FILE.
Proof.
  unfold _parse_patch_header_line.
  destruct (split [NUL] (rstrip [NUL] line)) as [|prefix [|nm rest]];
    try discriminate.
  repeat match goal with
         | |- context [if ?b then _ else _] => destruct b
         end; intro H; try discriminate H; injection H as _ <-; discriminate.
Qed.

Lemma header_entry_mode header name mode :
  In (Ok (name, mode)) (_parse_patch_header header) -> mode <> FILE.
Proof.
  unfold _parse_patch_header. destruct header as [|c header].
  - intros [H|[]]. discriminate H.
  - rewrite in_map_iff. intros [line [H _]]. eapply header_line_mode, H.
Qed.

Local Open Scope Z_scope.

Lemma round53_upper P e0 :
  2 ^ 53 <= P < 2 ^ 106 ->
  exists sh q, 1 <= sh <= 53 /\
    round53 P e0 = {| mant := q; expo := e0 + sh |} /\
    q * 2 ^ sh * 2 ^ 52 <= P * (2 ^ 52 + 1).
Proof.
  intros [HP HPup].
  assert (H53 : 0 < 2 ^ 53) by (apply Z.pow_pos_nonneg; lia).
  assert (HPpos : 0 < P) by lia.
  pose proof (Z.log2_spec P HPpos) as [Hlo Hhi].
  assert (HL1 : 53 <= Z.log2 P).
  { rewrite <- (Z.log2_pow2 53) by lia. apply Z.log2_le_mono. exact HP. }
  assert (HL2 : Z.log2 P < 106) by (apply Z.log2_lt_pow2; assumption).
  set (sh := Z.log2 P - 52) in *.
  assert (Hshpos : 0 < 2 ^ sh) by (apply Z.pow_pos_nonneg; unfold sh; lia).
  assert (Hlo' : 2 ^ sh * 2 ^ 52 <= P).
  { rewrite <- Z.pow_add_r by (unfold sh; lia).
    replace (sh + 52) with (Z.log2 P) by (unfold sh; lia). exact Hlo. }
  pose proof (Z.mul_div_le P (2 ^ sh) Hshpos) as Hq.
  unfold round53. rewrite (Z.abs_eq P) by lia.
  destruct (P <? 2 ^ 53) eqn:E; [apply Z.ltb_lt in E; lia|].
  fold sh. rewrite (Z.sgn_pos P) by lia.
  set (q := P / 2 ^ sh) in *.
  assert (Hq' : forall q', q' <= q + 1 ->
                  q' * 2 ^ sh * 2 ^ 52 <= P * (2 ^ 52 + 1)).
  { intros q' Hle.
    assert (q' * 2 ^ sh <= P + 2 ^ sh) by nia.
    assert (H52 : 0 < 2 ^ 52) by (apply Z.pow_pos_nonneg; lia).
    nia. }
  exists sh. eexists. split; [unfold sh; lia|]. split; [reflexivity|].
  rewrite Z.mul_1_l. apply Hq'.
  destruct (P mod 2 ^ sh <? 2 ^ (sh - 1)); [lia|].
  destruct (2 ^ (sh - 1) <? P mod 2 ^ sh); [lia|].
  destruct (Z.even q); lia.
Qed.

Lemma size_limit_below T n :
  0 < T < 2 ^ 53 ->
  int_gt_float n (float_mul (float_of_int T) float_0_90) = false ->
  n < T.
Proof.
  intros HT H.
  assert (E1 : float_of_int T = {| mant := T; expo := 0 |}).
  { unfold float_of_int, round53. rewrite Z.abs_eq by lia.
    destruct (T <? 2 ^ 53) eqn:E; [reflexivity|].
    apply Z.ltb_ge in E. lia. }
  rewrite E1 in H. unfold float_mul, float_0_90 in H. cbn [mant expo] in H.
  set (m := 8106479329266893) in *.
  assert (H53 : 2 ^ 53 = 9007199254740992) by reflexivity.
  assert (H52 : 2 ^ 52 = 4503599627370496) by reflexivity.
  destruct (Z_lt_le_dec (T * m) (2 ^ 53)) as [Hsmall | Hbig].
  - unfold round53 in H. rewrite Z.abs_eq in H by (unfold m; lia).
    apply Z.ltb_lt in Hsmall. rewrite Hsmall in H.
    unfold int_gt_float in H. cbn [mant expo] in H. cbn in H.
    apply Z.ltb_ge in H. apply Z.ltb_lt in Hsmall. unfold m in *. lia.
  - destruct (round53_upper (T * m) (0 + -53)) as [sh [q (Hsh & E2 & Hq)]].
    { split; [exact Hbig|].
      replace 106 with (53 + 53) by reflexivity. rewrite Z.pow_add_r by lia.
      unfold m. nia. }
    rewrite E2 in H. unfold int_gt_float in H. cbn [mant expo] in H.
    assert (Hshpos : 0 < 2 ^ sh) by (apply Z.pow_pos_nonneg; lia).
    assert (Hn : n * 2 ^ (53 - sh) <= q).
    { destruct (0 <=? 0 + -53 + sh) eqn:E.
      - apply Z.leb_le in E. assert (sh = 53) by lia. subst sh.
        replace (0 + -53 + 53) with 0 in H by lia.
        apply Z.ltb_ge in H. cbn in *. lia.
      - replace (- (0 + -53 + sh)) with (53 - sh) in H by lia.
        apply Z.ltb_ge in H. exact H. }
    assert (Hsplit : 2 ^ 53 = 2 ^ (53 - sh) * 2 ^ sh).
    { rewrite <- Z.pow_add_r by lia. f_equal. lia. }
    assert (Hn2 : n * 2 ^ 53 <= q * 2 ^ sh).
    { rewrite Hsplit. nia. }
    assert (Hfin : n * 2 ^ 53 * 2 ^ 52 <= T * m * (2 ^ 52 + 1)) by nia.
    rewrite H53, H52 in Hfin. unfold m in Hfin. lia.
Qed.

Local Close Scope Z_scope.

(** X10: every file that [_parse_patch] yields has a name that is not
    excluded, a filemode other than [FILE], and a document that starts
    with the hunk marker "@@", can be encoded, and is strictly shorter in
    UTF-8 bytes than the threshold (for a threshold between 1 and
    2^53). *)
Theorem parse_patch_yields_sound_files
  is_filepath_excluded DOCUMENT_SIZE_THRESHOLD_BYTES patch f :
  In f (yielded (_parse_patch is_filepath_excluded DOCUMENT_SIZE_THRESHOLD_BYTES
                   patch)) ->
  is_filepath_excluded (file_name f) = false /\
  file_mode f <> FILE /\
  starts_with (lit "@@") (document f) = true /\
  exists n, utf8_len (document f) = Ok n /\
    ((0 < DOCUMENT_SIZE_THRESHOLD_BYTES < 2 ^ 53)%Z ->
     (n < DOCUMENT_SIZE_THRESHOLD_BYTES)%Z).
Proof.
  intro H. unfold _parse_patch in H.
  apply in_gen_for in H. destruct H as [commit [_ H]].
  unfold parse_patch_commit in H.
  destruct (split_max (NUL :: lit "diff ") 1 commit) as [|header [|rest [|]]];
    try (destruct H; fail).
  apply in_gen_for in H. destruct H as [[[name mode] diff] [Hz H]].
  apply in_zip_lazy in Hz. destruct Hz as [Hh _].
  apply header_entry_mode in Hh.
  unfold parse_patch_file in H.
  destruct (is_filepath_excluded name) eqn:Hex; [destruct H|].
  destruct (find hunk_marker diff) as [i|] eqn:Hfind; [|destruct H].
  destruct (utf8_len (skipn (i + 1) diff)) as [n|e] eqn:Hlen; [|destruct H].
  destruct (int_gt_float n _) eqn:Hgt; [destruct H|].
  destruct (skipn (i + 1) diff) as [|c doc] eqn:Hdoc; [destruct H|].
  destruct H as [<-|[]]. cbn [CommitFile file_name file_mode document].
  split; [exact Hex|]. split; [exact Hh|]. split.
  - apply find_starts in Hfind.
    rewrite Nat.add_comm, <- skipn_skipn in Hdoc.
    destruct (skipn i diff) as [|x tail]; [discriminate Hfind|].
    cbn [skipn] in Hdoc. rewrite Hdoc in Hfind.
    unfold hunk_marker in Hfind. cbn [starts_with] in Hfind.
    apply andb_true_iff in Hfind. apply Hfind.
  - exists n. split; [exact Hlen|]. intro HT.
    eapply size_limit_below; eassumption.
Qed.

Lemma starts_with_app_l sub : forall x y,
  starts_with sub x = true -> starts_with sub (x ++ y) = true.
Proof.
  induction sub as [|c sub IH]; intros x y H; [reflexivity|].
  destruct x as [|d x]; [discriminate H|].
  cbn [starts_with app] in *. apply andb_true_iff in H. destruct H as [H1 H2].
  rewrite H1, (IH x y H2). reflexivity.
Qed.

Lemma find_none_suffix sub s :
  find sub s = None -> forall a b, s = a ++ b -> starts_with sub b = false.
Proof.
  induction s as [|c s IH]; intros H a b E.
  - symmetry in E. apply app_eq_nil in E. destruct E as [-> ->].
    cbn [find] in H. destruct (starts_with sub []); [discriminate H | reflexivity].
  - cbn [find] in H. destruct (starts_with sub (c :: s)) eqn:Es; [discriminate H|].
    destruct (find sub s) eqn:Ef; [discriminate H|].
    destruct a as [|x a].
    + cbn in E. subst b. exact Es.
    + injection E as _ E. apply (IH eq_refl a b E).
Qed.

Lemma find_none_intro sub s :
  (forall a b, s = a ++ b -> starts_with sub b = false) -> find sub s = None.
Proof.
  induction s as [|c s IH]; intro H.
  - cbn [find]. rewrite (H [] [] eq_refl). reflexivity.
  - cbn [find]. rewrite (H [] (c :: s) eq_refl).
    rewrite IH; [reflexivity|].
    intros a b E. apply (H (c :: a) b). rewrite E. reflexivity.
Qed.

Lemma find_none_infix sub s pre p post :
  find sub s = None -> s = pre ++ p ++ post -> find sub p = None.
Proof.
  intros H E. apply find_none_intro. intros a b Ep.
  destruct (starts_with sub b) eqn:Eb; [|reflexivity].
  rewrite <- (find_none_suffix sub s H (pre ++ a) (b ++ post)).
  - symmetry. apply starts_with_app_l, Eb.
  - rewrite E, Ep, <- !app_assoc. reflexivity.
Qed.

Lemma split_from_none sep budget s :
  find sep s = None -> split_from sep budget 0 s = [s].
Proof.
  induction s as [|c s IH]; intro H; [reflexivity|].
  cbn [find] in H. destruct (starts_with sep (c :: s)) eqn:Es; [discriminate H|].
  destruct (find sep s) eqn:Ef; [discriminate H|].
  cbn [split_from]. rewrite Es, (IH eq_refl).
  destruct budget as [[|n]|]; reflexivity.
Qed.

Lemma split_from_pieces sep s : forall budget skip,
  exists h t,
    split_from sep budget skip s = h :: t /\
    (exists post, skipn skip s = h ++ post) /\
    forall p, In p t -> exists pre post, s = pre ++ p ++ post.
Proof.
  induction s as [|c s IH]; intros budget skip.
  - exists [], []. split; [reflexivity|]. split.
    + exists []. destruct skip; reflexivity.
    + intros p [].
  - assert (Hcons : forall b,
              exists h t,
                cons_head c (split_from sep b 0 s) = h :: t /\
                (exists post, skipn 0 (c :: s) = h ++ post) /\
                (forall p, In p t -> exists pre post, c :: s = pre ++ p ++ post)).
    { intro b. destruct (IH b 0) as [h [t (E & [post Hp] & Ht)]].
      exists (c :: h), t. rewrite E. split; [reflexivity|]. split.
      - exists post. cbn [skipn] in *. rewrite Hp. reflexivity.
      - intros p Hin. destruct (Ht p Hin) as [pre [post' Es]].
        exists (c :: pre), post'. rewrite Es. reflexivity. }
    destruct skip as [|k].
    + cbn [split_from].
      assert (Hmatch : forall b k,
                exists h t,
                  [] :: split_from sep b k s = h :: t /\
                  (exists post, skipn 0 (c :: s) = h ++ post) /\
                  (forall p, In p t -> exists pre post, c :: s = pre ++ p ++ post)).
      { intros b k. destruct (IH b k) as [h [t (E & [post Hp] & Ht)]].
        exists [], (h :: t). rewrite E. split; [reflexivity|]. split.
        - exists (c :: s). reflexivity.
        - intros p [<-|Hin].
          + exists (c :: firstn k s), post.
            rewrite <- Hp. cbn [app]. rewrite firstn_skipn. reflexivity.
          + destruct (Ht p Hin) as [pre [post' Es]].
            exists (c :: pre), post'. rewrite Es. reflexivity. }
      destruct budget as [[|n]|].
      * apply Hcons.
      * destruct (starts_with sep (c :: s)); [apply Hmatch | apply Hcons].
      * destruct (starts_with sep (c :: s)); [apply Hmatch | apply Hcons].
    + cbn [split_from]. destruct (IH budget k) as [h [t (E & [post Hp] & Ht)]].
      exists h, t. split; [exact E|]. split.
      * exists post. exact Hp.
      * intros p Hin. destruct (Ht p Hin) as [pre [post' Es]].
        exists (c :: pre), post'. rewrite Es. reflexivity.
Qed.

Lemma split_piece_infix sep s p :
  In p (split sep s) -> exists pre post, s = pre ++ p ++ post.
Proof.
  unfold split. destruct (split_from_pieces sep s None 0) as [h [t (E & [post Hp] & Ht)]].
  rewrite E. intros [<-|Hin].
  - exists [], post. exact Hp.
  - apply Ht, Hin.
Qed.

Lemma gen_for_nothing {A B} (body : A -> gen B) (l : list A) :
  (forall a, In a l -> body a = gen_done []) ->
  gen_for (gen_done l) body = gen_done [].
Proof.
  unfold gen_for. cbn [yielded raised gen_done].
  induction l as [|a l IH]; intro H; [reflexivity|].
  cbn [fold_right]. rewrite (H a (or_introl eq_refl)), IH; [reflexivity|].
  intros a' Ha'. apply H. right. exact Ha'.
Qed.

(** X11: a patch in which NUL followed by "diff " does not occur yields no
    file and raises nothing, whatever else it holds. *)
Theorem parse_patch_without_diff
  is_filepath_excluded DOCUMENT_SIZE_THRESHOLD_BYTES patch :
  contains (NUL :: lit "diff ") patch = false ->
  _parse_patch is_filepath_excluded DOCUMENT_SIZE_THRESHOLD_BYTES patch
  = gen_done [].
Proof.
  intro H. unfold contains in H.
  destruct (find (NUL :: lit "diff ") patch) eqn:Ef; [discriminate H|].
  unfold _parse_patch. apply gen_for_nothing. intros commit Hin.
  destruct (split_piece_infix _ _ _ Hin) as [pre [post E]].
  unfold parse_patch_commit, split_max.
  rewrite (split_from_none _ _ _ (find_none_infix _ _ _ _ _ Ef E)).
  reflexivity.
Qed.

Lemma header_line_split_cons2 c d s :
  header_line_split (c :: d :: s)
  = if is_line_sep c d then [] :: header_line_split s
    else cons_head c (header_line_split (d :: s)).
Proof. reflexivity. Qed.

Lemma header_line_split_free p :
  line_sep_free p = true -> header_line_split p = [p].
Proof.
  induction p as [|c p IH]; [reflexivity|].
  destruct p as [|d p]; [reflexivity|].
  intro H. cbn [line_sep_free] in H. apply andb_true_iff in H.
  destruct H as [H1 H2]. apply negb_true_iff in H1.
  rewrite header_line_split_cons2, H1, (IH H2). reflexivity.
Qed.

Lemma header_line_split_app p c rest :
  line_sep_free p = true -> c = LF \/ c = NUL ->
  header_line_split (p ++ c :: COLON :: rest) = p :: header_line_split rest.
Proof.
  intros Hp Hc.
  assert (Hsep : is_line_sep c COLON = true)
    by (destruct Hc as [-> | ->]; reflexivity).
  assert (Hnc : forall x, is_line_sep x c = false).
  { intro x. unfold is_line_sep.
    destruct Hc as [-> | ->]; apply andb_false_r. }
  induction p as [|x p IH].
  - cbn [app]. rewrite header_line_split_cons2, Hsep. reflexivity.
  - destruct p as [|y p].
    + cbn [app] in *. rewrite header_line_split_cons2, Hnc, (IH eq_refl).
      reflexivity.
    + cbn [line_sep_free] in Hp. apply andb_true_iff in Hp.
      destruct Hp as [H1 H2]. apply negb_true_iff in H1.
      cbn [app] in *. rewrite header_line_split_cons2, H1, (IH H2).
      reflexivity.
Qed.

Lemma header_line_split_lines ls : forall info,
  line_sep_free info = true -> Forall header_line_ok ls ->
  header_line_split (info ++ header_lines ls) = info :: map snd ls.
Proof.
  induction ls as [|[c l] ls IH]; intros info Hi Hall.
  - cbn. rewrite app_nil_r. apply header_line_split_free, Hi.
  - inversion Hall as [|? ? [Hc Hl] Hrest]; subst. cbn [fst snd] in *.
    cbn [header_lines map snd].
    rewrite (header_line_split_app info c _ Hi Hc).
    rewrite (IH l Hl Hrest). reflexivity.
Qed.

(** X12: a header made of commit information followed by raw lines, each
    after a newline or NUL and a colon, gives one entry per line, in
    order, each the parse of its line; and a header with no commit
    information, starting at the colon of its first line, gives the same
    entries: its first file is not lost. *)
Theorem parse_patch_header_lines info l ls :
  line_sep_free info = true -> hd COLON info <> COLON ->
  line_sep_free l = true -> Forall header_line_ok ls ->
  _parse_patch_header (info ++ header_lines ((LF, l) :: ls))
  = map (fun x => _parse_patch_header_line (COLON :: x)) (l :: map snd ls)
  /\ _parse_patch_header (COLON :: l ++ header_lines ls)
     = map (fun x => _parse_patch_header_line (COLON :: x)) (l :: map snd ls).
Proof.
  intros Hi Hhd Hl Hall.
  assert (Hok : Forall header_line_ok ((LF, l) :: ls)).
  { constructor; [|exact Hall]. split; [left; reflexivity | exact Hl]. }
  split.
  - unfold _parse_patch_header.
    destruct (info ++ header_lines ((LF, l) :: ls)) as [|c rest] eqn:E.
    + destruct info; discriminate E.
    + assert (Hc : N.eqb c COLON = false).
      { destruct info as [|x info].
        - cbn in E. injection E as <- _. reflexivity.
        - cbn in E, Hhd. injection E as <- _. apply N.eqb_neq, Hhd. }
      rewrite Hc, <- E, (header_line_split_lines _ info Hi Hok). reflexivity.
  - unfold _parse_patch_header. rewrite N.eqb_refl.
    change (LF :: COLON :: l ++ header_lines ls)
      with ([] ++ header_lines ((LF, l) :: ls)).
    rewrite (header_line_split_lines _ [] eq_refl Hok). reflexivity.
Qed.

Lemma yield_children_results_run children :
  yield_children_results children
  = Gen (flat_map own_results (take_present children))
        (if forallb present children then None else Some none_has_no_results).
Proof.
  induction children as [|c cs IH]; [reflexivity|].
  cbn [yield_children_results take_present forallb]. rewrite IH.
  unfold yield_child_results, present, own_results at 2.
  destruct (sc_results c) as [r|] eqn:E; cbn [results_truthy andb].
  - cbn [flat_map]. unfold own_results at 1. rewrite E. reflexivity.
  - reflexivity.
Qed.

(** X15: for a node with a non-empty list of children, [get_all_results]
    yields the node's own results, then those of the children up to the
    first child without [Results]; it ends normally when every child has
    [Results] and with [AttributeError] otherwise. *)
Theorem get_all_results_until_absent self children :
  scans self = Some children -> children <> [] ->
  get_all_results self
  = Gen (own_results self ++ flat_map own_results (take_present children))
        (if forallb present children then None else Some none_has_no_results).
Proof.
  intros Hs Hne. unfold get_all_results. rewrite Hs.
  destruct children as [|c cs]; [congruence|].
  rewrite yield_children_results_run.
  change (own_results self)
    with (match sc_results self with Some r => results r | None => [] end).
  destruct (sc_results self); reflexivity.
Qed.

Lemma classify_some_letter status a :
  In a status_letters -> mem a status = true ->
  exists mode, classify_by_priority status = Some mode.
Proof.
  intros Ha Hm. unfold classify_by_priority, status_priority.
  cbn [List.find fst].
  unfold status_letters, status_priority in Ha. cbn [map fst In] in Ha.
  repeat match goal with
         | |- context [mem ?c status] =>
             destruct (mem c status) eqn:?; [eexists; reflexivity|]
         end.
  repeat (destruct Ha as [Ha|Ha]; [subst a; congruence|]). contradiction.
Qed.

Lemma letters_status_ok status :
  Forall (fun c => In c status_letters) status -> status_ok status.
Proof.
  intro H. eapply Forall_impl; [|exact H]. cbn beta. intros c Hc. cbn in Hc.
  repeat (destruct Hc as [Hc|Hc];
          [subst c; repeat split; discriminate|]).
  contradiction.
Qed.

Lemma classify_modify status :
  classify_by_priority status = Some MODIFY <-> mem (letter "M") status = true.
Proof.
  unfold classify_by_priority, status_priority. cbn [List.find fst].
  destruct (mem (letter "M") status); [split; reflexivity|].
  repeat match goal with
         | |- context [mem ?c status] => destruct (mem c status)
         end; split; discriminate.
Qed.

(** X13: on a raw header line with any positive number of valid status
    letters (one per parent), the parser returns the new name when the
    line has one and the name otherwise, with the filemode of the first
    letter of the order M, C, A, T, R, D that occurs; the filemode is
    [MODIFY] exactly when an "M" occurs. *)
Theorem header_line_any_parents pre status score name new trail :
  fields_ok pre score name new ->
  status <> [] -> Forall (fun c => In c status_letters) status ->
  exists mode,
    classify_by_priority status = Some mode /\
    _parse_patch_header_line (raw_line pre status score name new trail)
    = Ok (effective_name name new, mode) /\
    (mode = MODIFY <-> mem (letter "M") status = true).
Proof.
  intros Hf Hne Hall.
  rewrite (header_line_classification _ _ _ _ _ trail Hf (letters_status_ok _ Hall)).
  destruct status as [|a status']; [congruence|].
  assert (Ha : In a status_letters) by (inversion Hall; assumption).
  destruct (classify_some_letter (a :: status') a Ha) as [mode E].
  { cbn [mem]. rewrite N.eqb_refl. reflexivity. }
  exists mode. rewrite E. split; [reflexivity|]. split; [reflexivity|].
  rewrite <- classify_modify, E. split; [intros ->; reflexivity | congruence].
Qed.

(** X14: a header line that has no NUL left once its closing NULs are
    stripped, that is no name field, makes the parser raise [ValueError]
    on the unpacking. *)
Theorem header_line_without_name line :
  mem NUL (rstrip [NUL] line) = false ->
  _parse_patch_header_line line
  = Raise (Exn ValueError
             (lit "not enough values to unpack (expected at least 2, got 1)")).
Proof.
  intro H. unfold _parse_patch_header_line.
  rewrite (split_no_sep NUL _ H). reflexivity.
Qed.

Section CommitCommandFacts.

Variable is_filepath_excluded : str -> bool.
Variable DOCUMENT_SIZE_THRESHOLD_BYTES : Z.
Variable GIT_PATH : str.
Variable shell : list str -> result str.
Variable header_info_search : str -> option CommitInformation.

Let rd := do_read is_filepath_excluded DOCUMENT_SIZE_THRESHOLD_BYTES GIT_PATH
            shell header_info_search.
Let rds := do_reads is_filepath_excluded DOCUMENT_SIZE_THRESHOLD_BYTES GIT_PATH
             shell header_info_search.

Ltac run_any_read :=
  repeat (cbv beta iota zeta delta
            [rd do_read patch info Commit_files get_files m_bind m_get m_ret
             m_put m_emit m_raise m_rewrap trace_of state_of fst snd app
             _patch _files _info sha git_command];
          try match goal with
              | |- context [match shell ?a with _ => _ end] => destruct (shell a)
              end;
          try match goal with
              | |- context [match gen_list ?g with _ => _ end] =>
                  destruct (gen_list g)
              end;
          try match goal with
              | |- context [match header_info_search ?p with _ => _ end] =>
                  destruct (header_info_search p)
              end).

Lemma read_commands c r :
  sha (state_of (rd r c)) = sha c /\
  runs_only (git_command GIT_PATH (sha c)) (trace_of (rd r c)).
Proof.
  destruct c as [s pa fi inf]. unfold runs_only.
  destruct r, pa, fi, inf; run_any_read;
    (split; [reflexivity | repeat constructor]).
Qed.

Lemma reads_commands rs : forall c,
  runs_only (git_command GIT_PATH (sha c)) (fst (rds rs c)).
Proof.
  induction rs as [|r rs IH]; intro c; [constructor|].
  unfold rds. cbn [do_reads]. fold rd rds.
  destruct (read_commands c r) as [Hs Hr].
  unfold state_of, trace_of in *.
  destruct (rd r c) as [[tr c'] res]. cbn [fst snd] in *.
  specialize (IH c'). destruct (rds rs c') as [tr2 c2]. cbn [fst] in *.
  apply Forall_app. split; [exact Hr|]. rewrite <- Hs. exact IH.
Qed.

End CommitCommandFacts.

(** X17: whatever is read from a [Commit] and however git answers, every
    git invocation is the same command: [show <sha>] with the four
    options when the sha is a non-empty string, [diff --cached] with them
    when it is [None] or empty. *)
Theorem commit_runs_one_git_command
  is_filepath_excluded DOCUMENT_SIZE_THRESHOLD_BYTES GIT_PATH shell
  header_info_search sha0 rs :
  runs_only (git_command GIT_PATH sha0)
    (fst (do_reads is_filepath_excluded DOCUMENT_SIZE_THRESHOLD_BYTES GIT_PATH
            shell header_info_search rs (Commit_init sha0)))
  /\ git_command GIT_PATH None
     = [GIT_PATH; lit "diff"; lit "--cached";
        lit "--raw"; lit "-z"; lit "--patch"; lit "-m"]
  /\ git_command GIT_PATH (Some [])
     = [GIT_PATH; lit "diff"; lit "--cached";
        lit "--raw"; lit "-z"; lit "--patch"; lit "-m"]
  /\ forall c s,
       git_command GIT_PATH (Some (c :: s))
       = [GIT_PATH; lit "show"; c :: s;
          lit "--raw"; lit "-z"; lit "--patch"; lit "-m"].
Proof.
  split; [|repeat split; reflexivity].
  apply (reads_commands is_filepath_excluded DOCUMENT_SIZE_THRESHOLD_BYTES
           GIT_PATH shell header_info_search rs (Commit_init sha0)).
Qed.


(* ------------------------------------------------------------------ *)
(** ** Instances *)

Lemma start_scans_partition_witness :
  exists futs,
    outcome (_start_scans 2%Z remote_finds_a (undecoded_file :: three_files))
    = Ok futs /\
    List.concat (map snd futs) = three_files /\
    submitted (trace (_start_scans 2%Z remote_finds_a
                        (undecoded_file :: three_files)))
    = [[sample_file "a.txt"; sample_file "b.txt"]; [sample_file "c.txt"]].
Proof.
  eexists. split; [reflexivity|].
  destruct (start_scans_partition 2%Z remote_finds_a
              (undecoded_file :: three_files) _ eq_refl) as (Hc & Hs & _).
  split; [exact Hc | exact Hs].
Defined.

Lemma start_scans_chunk_sizes_witness :
  exists futs,
    outcome (_start_scans 2%Z remote_finds_a three_files) = Ok futs /\
    Forall (fun fc => (1 <= Z.of_nat (List.length (snd fc)) <= 2)%Z) futs.
Proof.
  eexists. split; [reflexivity|].
  apply (start_scans_chunk_sizes 2%Z remote_finds_a three_files).
  - lia.
  - reflexivity.
Defined.

Lemma scan_results_come_from_files_witness :
  exists file,
    In file [sample_file "a.txt"; sample_file "b.txt"] /\
    document file <> [] /\ result_of_file result_for_a file.
Proof.
  apply (scan_results_come_from_files literal_eval_sample (fun _ => [])
           (fun d => detail d) (fun s => s) (fun s _ => s) (fun r => r)
           (fun r => r) 20%Z remote_finds_a (fun l => l)
           [sample_file "a.txt"; sample_file "b.txt"]
           {| results := [result_for_a]; errors := [] |}).
  - intro l. apply Permutation_refl.
  - reflexivity.
  - left. reflexivity.
Defined.

Lemma classifier_reports_each_entry_witness :
  handle_scan_chunk_error literal_eval_sample
    (fun v => match v with PyStr s => s | _ => [] end)
    (fun d => detail d) (fun s => s) (fun s _ => s)
    sample_detail [sample_file "a.txt"; sample_file "b.txt"]
  = ([LogError (Some 400%Z) (lit "['too large', 'too large']");
      DisplayError (LF :: lit "Error scanning. Results may be incomplete.");
      DisplayError (lit "Add the following file to your paths-ignore:");
      Echo (lit "- a.txt: too large"); Echo (lit "- b.txt: too large")],
     Ok tt).
Proof.
  rewrite (classifier_reports_each_entry literal_eval_sample _ _ _ _
             sample_detail [sample_file "a.txt"; sample_file "b.txt"] 400%Z
             [PyStr (lit "too large"); PyStr (lit "too large")]).
  - reflexivity.
  - reflexivity.
  - discriminate.
  - reflexivity.
  - discriminate.
  - apply le_n.
Defined.

Lemma rejected_batch_adds_nothing_witness :
  outcome (collect_future literal_eval_sample (fun _ => []) (fun d => detail d)
             (fun s => s) (fun s _ => s) (fun r => r) (fun r => r)
             (Returned (RDetail sample_detail),
              [sample_file "a.txt"; sample_file "b.txt"])
             ([result_for_a], []))
  = Ok ([result_for_a], []).
Proof.
  apply (rejected_batch_adds_nothing literal_eval_sample _ _ _ _ _ _
           sample_detail [sample_file "a.txt"; sample_file "b.txt"] 400%Z).
  - reflexivity.
  - discriminate.
  - discriminate.
  - intros details j v H Hj _. injection H as <-.
    destruct j as [|[|j]]; cbn; [lia | lia | destruct j; discriminate Hj].
Defined.

Lemma parse_patch_yields_sound_files_witness :
  file_mode file0_modified <> FILE /\
  starts_with (lit "@@") (document file0_modified) = true.
Proof.
  destruct (parse_patch_yields_sound_files (fun _ => false) 1048576%Z
              two_headers_one_body file0_modified) as (_ & H1 & H2 & _).
  - left. reflexivity.
  - split; assumption.
Defined.

Lemma parse_patch_without_diff_witness :
  _parse_patch (fun _ => false) 1048576%Z empty_commit_patch = gen_done [].
Proof.
  apply (parse_patch_without_diff (fun _ => false) 1048576%Z empty_commit_patch).
  reflexivity.
Defined.

Lemma parse_patch_header_lines_witness :
  _parse_patch_header
    (show_info ++ header_lines [(LF, line_modify); (NUL, line_rename)])
  = [Ok (lit "file0", MODIFY); Ok (lit "file3", RENAME)].
Proof.
  destruct (parse_patch_header_lines show_info line_modify [(NUL, line_rename)])
    as [E _].
  - reflexivity.
  - discriminate.
  - reflexivity.
  - constructor; [split; [right; reflexivity | reflexivity] | constructor].
  - rewrite E. reflexivity.
Defined.

Lemma get_all_results_until_absent_witness :
  get_all_results bare_parent
  = Gen [sample_result "top"] (Some none_has_no_results).
Proof.
  apply (get_all_results_until_absent bare_parent [leaf "child" None None]).
  - reflexivity.
  - discriminate.
Defined.

Lemma header_line_any_parents_witness :
  _parse_patch_header_line
    (raw_line octopus_prefix [letter "D"; letter "M"; letter "A"] []
       (lit "desc.c") None 1)
  = Ok (lit "desc.c", MODIFY).
Proof.
  destruct (header_line_any_parents octopus_prefix
              [letter "D"; letter "M"; letter "A"] [] (lit "desc.c") None 1)
    as [mode (_ & E & Hm)].
  - repeat split; [constructor | discriminate].
  - discriminate.
  - repeat constructor; cbn; tauto.
  - rewrite E. f_equal. f_equal. apply Hm. reflexivity.
Defined.

Lemma header_line_without_name_witness :
  _parse_patch_header_line (lit ":100644 100644 bcd1234 0123456 M")
  = Raise (Exn ValueError
             (lit "not enough values to unpack (expected at least 2, got 1)")).
Proof.
  apply (header_line_without_name (lit ":100644 100644 bcd1234 0123456 M")).
  reflexivity.
Defined.

Lemma commit_reads_memoized_witness :
  git_invocations
    (fst (do_reads (fun _ => false) 1048576 (lit "git")
            (fun _ => Ok two_headers_one_body) (fun _ => None)
            [ReadInfo; ReadFiles; ReadPatch; ReadFiles]
            (Commit_init (Some (lit "9537b6f"))))) = 1
  /\ parse_realizations
       (fst (do_reads (fun _ => false) 1048576 (lit "git")
               (fun _ => Ok two_headers_one_body) (fun _ => None)
               [ReadInfo; ReadFiles; ReadPatch; ReadFiles]
               (Commit_init (Some (lit "9537b6f"))))) = 1.
Proof.
  apply (commit_reads_memoized (fun _ => false) 1048576%Z (lit "git")
           (fun _ => Ok two_headers_one_body) (fun _ => None)
           two_headers_one_body [file0_modified] (Some (lit "9537b6f"))
           [ReadInfo; ReadFiles; ReadPatch; ReadFiles]).
  - reflexivity.
  - reflexivity.
  - discriminate.
  - discriminate.
Defined.


